(** * QENEX Coin ledger core (src/kernel/cryptocurrency/qenex_coin.c)

    Shallow embedding of the ledger of qenex_coin.c and of the wallet update
    done by continuous_trainer.c.  Two views of the C [double]s are used:
    - [Binary64]: exact IEEE-754 binary64 arithmetic (Rocq's primitive
      floats), used for the admission gate, whose behaviour is decided by
      [double] comparisons alone;
    - [QXC]: doubles idealised as real numbers, used for the reward formula
      (which needs [log10]), the supply cap and the balance scan. *)

From Stdlib Require Import ZArith Lia List String Ascii Bool.
From Stdlib Require Import Reals Lra.
From Stdlib Require Import PrimFloat.
Import ListNotations.

(* The C sources use the inexact literals 0.6, 0.8, 1.2, 1.3, 1.8. *)
Set Warnings "-inexact-float".

(* ------------------------------------------------------------------ *)
(** ** Binary64 view: [verify_ai_improvement] on real C doubles *)

Module Binary64.

Local Open Scope float_scope.

(** [ai_verification_t] (qenex_coin.h), the fields the gate and the reward
    read; [uint32_t] counts as [Z]. *)
Record ai_verification := {
  improvement_percentage : float;
  validation_loss : float;
  f1_score : float;
  precision : float;
  verifying_nodes : Z;
  confirmations : Z;
  consensus_score : float
}.

(** [verify_ai_improvement], qenex_coin.c lines 157-179: four early
    returns on [<] comparisons. *)
Definition verify_ai_improvement (v : ai_verification) : bool :=
  if improvement_percentage v <? 1.0 then false
  else if (confirmations v <? 3)%Z then false
  else if consensus_score v <? 0.75 then false
  else if f1_score v <? 0.5 then false
  else true.

(** [INITIAL_REWARD], [HALVING_INTERVAL] and [MAX_SUPPLY] (qenex_coin.h). *)
Definition INITIAL_REWARD : float := 100.0.
Definition HALVING_INTERVAL : Z := 210000.
Definition MAX_SUPPLY : float := 21000000.0.

(** The halving loop [for (i = 0; i < halvings; i++) base_reward /= 2.0]. *)
Fixpoint halve (halvings : nat) (base_reward : float) : float :=
  match halvings with
  | O => base_reward
  | S k => halve k (base_reward / 2.0)
  end.

(** The [switch (type)] of [calculate_mining_reward]; [mining_type_t] is the
    enum of qenex_coin.h (1..8); any other value keeps the default 1.0. *)
Definition type_multiplier (type : Z) : float :=
  match type with
  | 6%Z => 3.0
  | 4%Z => 2.5
  | 1%Z => 2.0
  | 5%Z => 1.8
  | 2%Z => 1.5
  | 7%Z => 1.5
  | 8%Z => 1.3
  | 3%Z => 1.2
  | _ => 1.0
  end.

Section Reward.

(** The C library's [log10]; only its value at NaN matters below. *)
Variable log10 : float -> float.

(** [calculate_mining_reward], qenex_coin.c lines 182-232, reading the
    globals [blockchain_height] ([uint32_t]) and [total_supply]. *)
Definition calculate_mining_reward (type : Z) (improvement : float)
    (blockchain_height : Z) (total_supply : float) : float :=
  let halvings := Z.to_nat (blockchain_height / HALVING_INTERVAL) in
  let base_reward := halve halvings INITIAL_REWARD in
  let improvement_multiplier := 1.0 + log10 (1.0 + improvement / 10.0) in
  let final_reward := base_reward * type_multiplier type * improvement_multiplier in
  if MAX_SUPPLY <? total_supply + final_reward
  then MAX_SUPPLY - total_supply
  else final_reward.

End Reward.

(** A submission whose improvement percentage is NaN, all other fields
    above their thresholds. *)
Definition nan_improvement_claim : ai_verification :=
  {| improvement_percentage := nan; validation_loss := 0.25; f1_score := 0.75;
     precision := 0.875; verifying_nodes := 3; confirmations := 3;
     consensus_score := 0.875 |}.

End Binary64.

(* ------------------------------------------------------------------ *)
(** ** Real-number view of the ledger *)

Module QXC.

Local Open Scope Z_scope.

(** Constants of qenex_coin.h. *)
Definition INITIAL_REWARD : R := 100%R.
Definition HALVING_INTERVAL : Z := 210000.
Definition MAX_SUPPLY : R := 21000000%R.
Definition DIFFICULTY_ADJUSTMENT_INTERVAL : Z := 100.

(** [log10] of <math.h>. *)
Definition log10 (x : R) : R := (ln x / ln 10)%R.

(** [transaction_t] (qenex_coin.h), with its [ai_contribution] flattened. *)
Record transaction := {
  tx_id : string;
  sender : string;
  receiver : string;
  amount : R;
  fee : R;
  tx_timestamp : Z;
  signature : string;
  contribution_type : Z;
  contribution_score : R;
  ai_model_ref : string
}.

(** The [ai_mining_data] member of [block_t]. *)
Record ai_mining_data_t := {
  mining_type : Z;
  improvement_metric : R;
  developer_id : string;
  model_hash : string;
  reward_amount : R
}.

(** [block_t]; the [next]/[prev] links are the order of the list
    [blocks] of the state, [transactions]/[tx_count] a list. *)
Record block := {
  index : Z;
  timestamp : Z;
  prev_hash : string;
  hash : string;
  nonce : Z;
  difficulty : Z;
  ai_mining_data : ai_mining_data_t;
  transactions : list transaction
}.

(** [ai_verification_t], the fields read by [mine_block]. *)
Record ai_verification := {
  model_id : string;
  improvement_percentage : R;
  validation_loss : R;
  f1_score : R;
  precision : R;
  verifying_nodes : Z;
  confirmations : Z;
  consensus_score : R
}.

(** [verify_ai_improvement], qenex_coin.c lines 157-179. *)
Definition verify_ai_improvement (v : ai_verification) : bool :=
  if Rlt_dec (improvement_percentage v) 1%R then false
  else if confirmations v <? 3 then false
  else if Rlt_dec (consensus_score v) (75 / 100)%R then false
  else if Rlt_dec (f1_score v) (1 / 2)%R then false
  else true.

(** The halving loop of [calculate_mining_reward], on reals: exact.  In
    binary64 [100 / 2^k] is exact up to [k = 1076] and then rounds, to 0
    from [k = 1082] (see [Binary64.halve]). *)
Fixpoint halve (halvings : nat) (base_reward : R) : R :=
  match halvings with
  | O => base_reward
  | S k => halve k (base_reward / 2)
  end.

(** The [switch (type)] of [calculate_mining_reward]. *)
Definition type_multiplier (type : Z) : R :=
  match type with
  | 6 => 3
  | 4 => 5 / 2
  | 1 => 2
  | 5 => 18 / 10
  | 2 => 3 / 2
  | 7 => 3 / 2
  | 8 => 13 / 10
  | 3 => 12 / 10
  | _ => 1
  end%R.

(** [calculate_mining_reward], qenex_coin.c lines 182-232; the globals
    [blockchain_height] and [total_supply] are passed explicitly. *)
Definition calculate_mining_reward (type : Z) (improvement : R)
    (blockchain_height : Z) (total_supply : R) : R :=
  let halvings := Z.to_nat (blockchain_height / HALVING_INTERVAL) in
  let base_reward := halve halvings INITIAL_REWARD in
  let improvement_multiplier := (1 + log10 (1 + improvement / 10))%R in
  let final_reward := (base_reward * type_multiplier type * improvement_multiplier)%R in
  if Rlt_dec MAX_SUPPLY (total_supply + final_reward)
  then (MAX_SUPPLY - total_supply)%R
  else final_reward.

(** The fields [calculate_block_hash] renders with
    [sprintf("%u%lu%s%u%f%s%f", ...)] before hashing. *)
Record hash_input := {
  h_index : Z;
  h_timestamp : Z;
  h_prev_hash : string;
  h_nonce : Z;
  h_improvement_metric : R;
  h_developer_id : string;
  h_reward_amount : R
}.

Definition hash_fields (b : block) : hash_input :=
  {| h_index := index b; h_timestamp := timestamp b; h_prev_hash := prev_hash b;
     h_nonce := nonce b; h_improvement_metric := improvement_metric (ai_mining_data b);
     h_developer_id := developer_id (ai_mining_data b);
     h_reward_amount := reward_amount (ai_mining_data b) |}.

(** Field updates [block->nonce = n] and [block->hash = h]. *)
Definition set_nonce (b : block) (n : Z) : block :=
  {| index := index b; timestamp := timestamp b; prev_hash := prev_hash b;
     hash := hash b; nonce := n; difficulty := difficulty b;
     ai_mining_data := ai_mining_data b; transactions := transactions b |}.

Definition set_hash (b : block) (h : string) : block :=
  {| index := index b; timestamp := timestamp b; prev_hash := prev_hash b;
     hash := h; nonce := nonce b; difficulty := difficulty b;
     ai_mining_data := ai_mining_data b; transactions := transactions b |}.

(** [memcmp(hash, target, difficulty)] against a target of [difficulty]
    characters '0': its sign.  Past the end of the hash string the C
    terminator NUL is read. *)
Fixpoint memcmp_target (s : string) (n : nat) : Z :=
  match n with
  | O => 0
  | S k =>
      let '(c, rest) := match s with
                        | EmptyString => (Ascii.zero, EmptyString)
                        | String c r => (c, r)
                        end in
      if (nat_of_ascii c <? 48)%nat then -1
      else if (48 <? nat_of_ascii c)%nat then 1
      else memcmp_target rest k
  end.

(** The exit test of the proof-of-work loop of [mine_block]. *)
Definition pow_ok (b : block) : bool :=
  memcmp_target (hash b) (Z.to_nat (difficulty b)) <=? 0.

(** A calloc'ed block, the value of [blockchain_tail] fields never read
    on a non-empty chain. *)
Definition empty_block : block :=
  {| index := 0; timestamp := 0; prev_hash := ""; hash := ""; nonce := 0;
     difficulty := 0;
     ai_mining_data := {| mining_type := 0; improvement_metric := 0;
                          developer_id := ""; model_hash := ""; reward_amount := 0 |};
     transactions := [] |}.

Definition tail_of (bs : list block) : block := last bs empty_block.

(** [calculate_difficulty], qenex_coin.c lines 337-359: [time_diff] is a
    [uint64_t] difference and the difficulty a [uint32_t]. *)
Definition calculate_difficulty (bs : list block) (blockchain_height : Z) : Z :=
  let tail := tail_of bs in
  if negb (blockchain_height mod DIFFICULTY_ADJUSTMENT_INTERVAL =? 0)
  then difficulty tail
  else
    let steps := Nat.min (Z.to_nat (DIFFICULTY_ADJUSTMENT_INTERVAL - 1)) (List.length bs - 1) in
    let prev_adjustment := nth (List.length bs - 1 - steps) bs empty_block in
    let time_diff := (timestamp tail - timestamp prev_adjustment) mod 2 ^ 64 in
    let expected_time := DIFFICULTY_ADJUSTMENT_INTERVAL * 60 in
    let new_difficulty := difficulty tail in
    if time_diff <? expected_time / 2 then (new_difficulty + 1) mod 2 ^ 32
    else if expected_time * 2 <? time_diff then
      (if 1 <? new_difficulty then new_difficulty - 1 else new_difficulty)
    else new_difficulty.

(** An entry of the contribution statistics of a wallet. *)
Record contribution := {
  c_type : Z;
  c_score : R;
  c_model_ref : string
}.

(** The global state of qenex_coin.c ([blockchain_head]..[blockchain_tail],
    [blockchain_height], [total_supply]) together with the [balance] field
    of every wallet, keyed by the wallet's address, and the contribution
    statistics recorded by [record_ai_contribution]. *)
Record qxc_state := {
  blocks : list block;
  blockchain_height : Z;
  total_supply : R;
  balances : string -> R;
  contributions : list (string * contribution)
}.

(** [wallet->balance += delta] for the wallet at [addr]. *)
Definition add_balance (bal : string -> R) (addr : string) (delta : R) : string -> R :=
  fun a => if String.eqb a addr then (bal a + delta)%R else bal a.

Section Ledger.

(** [SHA256] of the rendered fields, as the 64-character hex string that
    [calculate_block_hash] writes. *)
Variable sha256_hex : hash_input -> string.

(** [calculate_block_hash], qenex_coin.c lines 316-334. *)
Definition calculate_block_hash (b : block) : string := sha256_hex (hash_fields b).

Definition with_block_hash (b : block) : block := set_hash b (calculate_block_hash b).

(** The genesis block of [qxc_init], qenex_coin.c lines 35-46. *)
Definition genesis (t : Z) : block :=
  with_block_hash
    {| index := 0; timestamp := t; prev_hash := "0"; hash := ""; nonce := 0;
       difficulty := 4;
       ai_mining_data := {| mining_type := 5; improvement_metric := 100;
                            developer_id := "QENEX_FOUNDATION"; model_hash := "";
                            reward_amount := INITIAL_REWARD |};
       transactions := [] |}.

(** [qxc_init], qenex_coin.c lines 31-57 ([t] is [time(NULL)]); wallets
    are calloc'ed, so every balance starts at 0. *)
Definition qxc_init (t : Z) : qxc_state :=
  {| blocks := [genesis t]; blockchain_height := 1; total_supply := INITIAL_REWARD;
     balances := fun _ => 0%R; contributions := [] |}.

(** [strcpy(developer_id, address)] then [strcpy(model_hash, model_id)]:
    [developer_id] is a [char[64]] directly followed by the [char[65]]
    [model_hash].  An address of 64 characters or more fills [developer_id]
    without a terminator (its tail and NUL land in [model_hash], which the
    second [strcpy] overwrites), so [developer_id], read as a C string, is
    the first 64 characters of the address followed by [model_id]; a
    shorter address fits. *)
Definition developer_id_read (address model_id : string) : string :=
  if (64 <=? String.length address)%nat then (substring 0 64 address ++ model_id)%string
  else address.

(** The block [mine_block] assembles before the nonce search,
    qenex_coin.c lines 95-111: [ai_mining_data.type] is left at its
    calloc'ed value 0, and the reward is computed from it. *)
Definition candidate_block (st : qxc_state) (miner : string) (proof : ai_verification)
    (t : Z) : block :=
  let reward := calculate_mining_reward 0 (improvement_percentage proof)
                  (blockchain_height st) (total_supply st) in
  {| index := blockchain_height st; timestamp := t;
     prev_hash := hash (tail_of (blocks st)); hash := ""; nonce := 0;
     difficulty := calculate_difficulty (blocks st) (blockchain_height st);
     ai_mining_data := {| mining_type := 0;
                          improvement_metric := improvement_percentage proof;
                          developer_id := developer_id_read miner (model_id proof);
                          model_hash := model_id proof;
                          reward_amount := reward |};
     transactions := [] |}.

(** One iteration of the nonce loop: [nonce] set, hash recomputed. *)
Definition try_nonce (b : block) (n : Z) : block := with_block_hash (set_nonce b n).

(** Lines 130-145: append, [blockchain_height++] on a [uint32_t], credit
    the miner's wallet balance and the supply. *)
Definition append_block (st : qxc_state) (miner : string) (b : block) : qxc_state :=
  let reward := reward_amount (ai_mining_data b) in
  {| blocks := blocks st ++ [b];
     blockchain_height := (blockchain_height st + 1) mod 2 ^ 32;
     total_supply := (total_supply st + reward)%R;
     balances := add_balance (balances st) miner reward;
     contributions := contributions st |}.

(** [mine_block], qenex_coin.c lines 85-154, for the wallet with address
    [miner] at time [t]: rejected by the gate, or the nonce search stops at
    the first [uint32_t] nonce whose hash meets the target.  The miner's
    [mining_stats] counters are not modelled. *)
Inductive mine_block (st : qxc_state) (miner : string) (proof : ai_verification) (t : Z)
  : option (qxc_state * block) -> Prop :=
| mine_rejected :
    verify_ai_improvement proof = false ->
    mine_block st miner proof t None
| mine_found : forall n,
    verify_ai_improvement proof = true ->
    0 <= n < 2 ^ 32 ->
    pow_ok (try_nonce (candidate_block st miner proof t) n) = true ->
    (forall m, 0 <= m < n -> pow_ok (try_nonce (candidate_block st miner proof t) m) = false) ->
    mine_block st miner proof t
      (Some (append_block st miner (try_nonce (candidate_block st miner proof t) n),
             try_nonce (candidate_block st miner proof t) n)).

(** [verify_blockchain_integrity], qenex_coin.c lines 469-498: the loop
    runs while [current->next] exists; the recomputed hash is written back
    into the block; the result is 1 (valid) or 0. *)
Fixpoint verify_from (bs : list block) : Z * list block :=
  match bs with
  | cur :: ((nxt :: _) as rest) =>
      if negb (String.eqb (hash cur) (prev_hash nxt)) then (0, bs)
      else
        let h := calculate_block_hash cur in
        if negb (String.eqb (hash cur) h) then (0, set_hash cur h :: rest)
        else let '(r, rest') := verify_from rest in (r, set_hash cur h :: rest')
  | _ => (1, bs)
  end.

Definition verify_blockchain_integrity (st : qxc_state) : Z * qxc_state :=
  let '(r, bs) := verify_from (blocks st) in
  (r, {| blocks := bs; blockchain_height := blockchain_height st;
         total_supply := total_supply st; balances := balances st;
         contributions := contributions st |}).

(** [get_wallet_balance], qenex_coin.c lines 442-466: the inner [for]
    over a block's transactions, then the [while] over the chain. *)
Fixpoint scan_transactions (address : string) (txs : list transaction) (balance : R) : R :=
  match txs with
  | [] => balance
  | tx :: txs' =>
      let balance1 := if String.eqb (receiver tx) address
                      then (balance + amount tx)%R else balance in
      let balance2 := if String.eqb (sender tx) address
                      then (balance1 - (amount tx + fee tx))%R else balance1 in
      scan_transactions address txs' balance2
  end.

Fixpoint scan_blocks (address : string) (bs : list block) (balance : R) : R :=
  match bs with
  | [] => balance
  | b :: bs' =>
      let balance1 := if String.eqb (developer_id (ai_mining_data b)) address
                      then (balance + reward_amount (ai_mining_data b))%R else balance in
      scan_blocks address bs' (scan_transactions address (transactions b) balance1)
  end.

Definition get_wallet_balance (bs : list block) (address : string) : R :=
  scan_blocks address bs 0.

(** Modelled from the spec: [verify_transaction_signature] is called by
    [process_transaction] but is not in the repository; the spec treats the
    signature check as a pluggable predicate. *)
Variable verify_transaction_signature : transaction -> bool.

(** Modelled from the spec: [update_balance] is called by
    [process_transaction] but is not in the repository; the spec's transfer
    debits the sender and credits the receiver, i.e. adds [delta] to the
    balance of the wallet at [address]. *)
Definition update_balance (st : qxc_state) (address : string) (delta : R) : qxc_state :=
  {| blocks := blocks st; blockchain_height := blockchain_height st;
     total_supply := total_supply st; balances := add_balance (balances st) address delta;
     contributions := contributions st |}.

(** Modelled from the spec: [record_ai_contribution] is called by
    [process_transaction] but is not in the repository; the spec keeps
    per-owner contribution statistics, here a log of recorded entries. *)
Definition record_ai_contribution (st : qxc_state) (address : string) (c : contribution)
  : qxc_state :=
  {| blocks := blocks st; blockchain_height := blockchain_height st;
     total_supply := total_supply st; balances := balances st;
     contributions := contributions st ++ [(address, c)] |}.

(** [process_transaction], qenex_coin.c lines 417-439: 0 on failure, 1 on
    success. *)
Definition process_transaction (st : qxc_state) (tx : transaction) : Z * qxc_state :=
  if negb (verify_transaction_signature tx) then (0, st)
  else
    let sender_balance := get_wallet_balance (blocks st) (sender tx) in
    if Rlt_dec sender_balance (amount tx + fee tx) then (0, st)
    else
      let st1 := update_balance st (sender tx) (- (amount tx + fee tx))%R in
      let st2 := update_balance st1 (receiver tx) (amount tx) in
      if Rlt_dec 0 (contribution_score tx)
      then (1, record_ai_contribution st2 (receiver tx)
                 {| c_type := contribution_type tx; c_score := contribution_score tx;
                    c_model_ref := ai_model_ref tx |})
      else (1, st2).

(** [finalize_training], continuous_trainer.c lines 378-395: a flat
    completion bonus of 0.1 added to the node's wallet balance. *)
Definition finalize_training (st : qxc_state) (wallet_address : string) : qxc_state :=
  update_balance st wallet_address (1 / 10)%R.

(** The states the ledger reaches from [qxc_init] through successful
    mining, successful transfers (also the pool payouts of
    [distribute_training_rewards]) and completed training tasks. *)
Inductive reachable : qxc_state -> Prop :=
| reach_init : forall t, reachable (qxc_init t)
| reach_mine : forall st miner proof t st' b,
    reachable st -> mine_block st miner proof t (Some (st', b)) -> reachable st'
| reach_transfer : forall st tx st',
    reachable st -> process_transaction st tx = (1, st') -> reachable st'
| reach_finalize : forall st wallet_address,
    reachable st -> reachable (finalize_training st wallet_address).

End Ledger.


(** Spec side of the chain check: walk from genesis, recompute every
    block's hash and check it against the next block's [prev_hash];
    [Some i] is the first failing position, [None] means valid. *)
Fixpoint first_invalid_from (digest : block -> string) (i : nat) (bs : list block)
  : option nat :=
  match bs with
  | [] => None
  | cur :: rest =>
      if negb (String.eqb (hash cur) (digest cur)) then Some i
      else match rest with
           | nxt :: _ =>
               if negb (String.eqb (hash cur) (prev_hash nxt)) then Some i
               else first_invalid_from digest (S i) rest
           | [] => None
           end
  end.


(** Spec side of the balance query: reward credits of the blocks claimed by
    [address], plus transaction credits, minus amount and fee of the
    transactions sent by [address]. *)
Definition sumR (l : list R) : R := fold_right Rplus 0%R l.

Definition reward_credits (address : string) (bs : list block) : R :=
  sumR (map (fun b => if String.eqb (developer_id (ai_mining_data b)) address
                      then reward_amount (ai_mining_data b) else 0%R) bs).

Definition tx_credits (address : string) (txs : list transaction) : R :=
  sumR (map (fun tx => if String.eqb (receiver tx) address then amount tx else 0%R) txs).

Definition tx_debits (address : string) (txs : list transaction) : R :=
  sumR (map (fun tx => if String.eqb (sender tx) address
                       then (amount tx + fee tx)%R else 0%R) txs).

Definition derived_balance (bs : list block) (address : string) : R :=
  (reward_credits address bs
   + tx_credits address (flat_map transactions bs)
   - tx_debits address (flat_map transactions bs))%R.

(** A string of [n] characters '0'. *)
Fixpoint zeros (n : nat) : string :=
  match n with
  | O => EmptyString
  | S k => String "0" (zeros k)
  end.

(** A digest that always meets the proof-of-work target, and a signature
    predicate that rejects everything. *)
Definition all_zero_digest (_ : hash_input) : string := zeros 64.
Definition const_digest (_ : hash_input) : string := "5a"%string.
Definition reject_all_signatures (_ : transaction) : bool := false.

(** A submission that passes the gate. *)
Definition good_proof : ai_verification :=
  {| model_id := "model_0"; improvement_percentage := 10; validation_loss := 1 / 10;
     f1_score := 6 / 10; precision := 9 / 10; verifying_nodes := 3;
     confirmations := 3; consensus_score := 8 / 10 |}%R.

(** The state after one [mine_block] by the wallet "miner" on
    [qxc_init] (time 0) with [good_proof], under [all_zero_digest], whose
    first nonce 0 meets the target. *)
Definition mined_once : qxc_state :=
  append_block (qxc_init all_zero_digest 0) "miner"
    (try_nonce all_zero_digest (candidate_block (qxc_init all_zero_digest 0) "miner" good_proof 0) 0).

(** The state [st] with the stored hash of its last block replaced by [h]. *)
Definition tamper_last_hash (st : qxc_state) (h : string) : qxc_state :=
  {| blocks := removelast (blocks st) ++ [set_hash (tail_of (blocks st)) h];
     blockchain_height := blockchain_height st; total_supply := total_supply st;
     balances := balances st; contributions := contributions st |}.

(** A transfer of 1 from the genesis claimant, without fee. *)
Definition foundation_transfer : transaction :=
  {| tx_id := "t0"; sender := "QENEX_FOUNDATION"; receiver := "wallet"; amount := 1;
     fee := 0; tx_timestamp := 0; signature := ""; contribution_type := 0;
     contribution_score := 0; ai_model_ref := "" |}%R.

End QXC.

(* ------------------------------------------------------------------ *)
(** ** [create_wallet]: the address buffer (qenex_coin.c lines 60-82) *)

Module Wallet.

Local Open Scope Z_scope.

(** [a[k] = v] on a C array; past its end nothing is written. *)
Fixpoint store {A : Type} (a : list A) (k : nat) (v : A) : list A :=
  match a, k with
  | [], _ => []
  | _ :: rest, O => v :: rest
  | x :: rest, S k' => x :: store rest k' v
  end.

(** A lowercase digit of [printf]'s [%x], as a character code. *)
Definition hex_digit (n : Z) : Z := if n <? 10 then 48 + n else 87 + n.

(** [sprintf(&buf[pos], "%02x", v)] for [0 <= v < 256]: two digits and
    the terminating NUL. *)
Definition sprintf_02x (buf : list Z) (pos : nat) (v : Z) : list Z :=
  store (store (store buf pos (hex_digit (v / 16))) (pos + 1) (hex_digit (v mod 16)))
        (pos + 2) 0.

(** Iteration [i] of the encoding loop of [create_wallet]: the byte at [i]
    is read through [(unsigned char* )wallet->address], from the buffer the
    previous iterations have written into. *)
Definition hex_step (buf : list Z) (i : nat) : list Z :=
  sprintf_02x buf (2 * i) (nth i buf 0 mod 256).

(** The calloc'ed [char address[65]] once [SHA256] has written the 32
    digest bytes to its start. *)
Definition address_buffer (digest : list Z) : list Z := digest ++ repeat 0 33.

(** Lines 67-71: the loop over the 32 positions, then [address[64] = '\0']. *)
Definition encode_address (digest : list Z) : list Z :=
  store (fold_left hex_step (seq 0 32) (address_buffer digest)) 64 0.

(** The C string held by a [char] array: the characters before the first
    NUL. *)
Fixpoint c_string (buf : list Z) : list Z :=
  match buf with
  | [] => []
  | c :: rest => if c =? 0 then [] else c :: c_string rest
  end.

(** [wallet_t] (qenex_coin.h): the address buffer, the balance and the
    mining counters; the key buffers stay zero and are not modelled. *)
Record wallet := {
  address : list Z;
  balance : R;
  total_contributions : Z;
  total_mined : R
}.

(** [create_wallet], qenex_coin.c lines 60-82: [sha256] is [SHA256] of the
    bytes of [developer_id]; the random key is generated and never used. *)
Definition create_wallet (sha256 : string -> list Z) (developer_id : string) : wallet :=
  {| address := encode_address (sha256 developer_id); balance := 0%R;
     total_contributions := 0; total_mined := 0%R |}.

(** [wallet->balance += delta]. *)
Definition credit (w : wallet) (delta : R) : wallet :=
  {| address := address w; balance := (balance w + delta)%R;
     total_contributions := total_contributions w; total_mined := total_mined w |}.

(** Two buffers hold the same bytes below position [n]. *)
Definition agree (n : nat) (b b' : list Z) : Prop :=
  forall k, (k < n)%nat -> nth k b 0 = nth k b' 0.

(** A lowercase hex digit, as a character code. *)
Definition is_hex_digit (c : Z) : bool := ((48 <=? c) && (c <=? 57)) || ((97 <=? c) && (c <=? 102)).

(** Test digests: two 32-byte values sharing their first byte. *)
Definition sample_sha256 (s : string) : list Z :=
  if String.eqb s "node_a" then 7 :: repeat 200 31 else 7 :: repeat 5 31.

End Wallet.

(* ------------------------------------------------------------------ *)
(** ** The training coordinator (continuous_trainer.c) *)

Module Trainer.

Local Open Scope Z_scope.

Definition MAX_TRAINING_NODES : nat := 1000.
Definition TRAINING_PORT : Z := 9547.

(** The [resources] member of [training_node_t]. *)
Record resources := {
  cpu_cores : Z;
  gpu_count : Z;
  memory_gb : Z;
  tflops : R;
  current_utilization : R
}.

(** The [task] member of [training_node_t]. *)
Record training_task := {
  task_model_id : string;
  current_epoch : Z;
  total_epochs : Z;
  loss : R;
  accuracy : R;
  start_time : Z;
  samples_processed : Z
}.

(** [training_node_t]; the [wallet] pointer is the wallet it points to
    (for a slot never used it is never dereferenced). *)
Record training_node := {
  node_id : string;
  ip_address : string;
  port : Z;
  active : bool;
  node_resources : resources;
  task : training_task;
  wallet : Wallet.wallet;
  mining_contribution : R;
  blocks_contributed : Z
}.

(** The [metrics] member of [training_system]. *)
Record training_metrics := {
  total_improvements : Z;
  cumulative_accuracy_gain : R;
  total_epochs_trained : Z;
  total_qxc_mined : R
}.

(** [training_system]: the node table, [active_nodes], and the repository,
    whose [models[i]] and [best_accuracies[i]] for [i < model_count] are
    the entries of [repository] (so [model_count] is its length). *)
Record training_system := {
  nodes : list training_node;
  active_nodes : Z;
  repository : list (string * R);
  metrics : training_metrics
}.

Definition zero_resources : resources :=
  {| cpu_cores := 0; gpu_count := 0; memory_gb := 0; tflops := 0%R;
     current_utilization := 0%R |}.

Definition zero_task : training_task :=
  {| task_model_id := ""; current_epoch := 0; total_epochs := 0; loss := 0%R;
     accuracy := 0%R; start_time := 0; samples_processed := 0 |}.

Definition zero_wallet : Wallet.wallet :=
  {| Wallet.address := repeat 0 65; Wallet.balance := 0%R;
     Wallet.total_contributions := 0; Wallet.total_mined := 0%R |}.

(** A zero-initialised slot of the static node table. *)
Definition empty_node : training_node :=
  {| node_id := ""; ip_address := ""; port := 0; active := false;
     node_resources := zero_resources; task := zero_task; wallet := zero_wallet;
     mining_contribution := 0%R; blocks_contributed := 0 |}.

Definition zero_metrics : training_metrics :=
  {| total_improvements := 0; cumulative_accuracy_gain := 0%R; total_epochs_trained := 0;
     total_qxc_mined := 0%R |}.

(** The static initialiser of [training_system] followed by
    [init_continuous_training], which zeroes the metrics. *)
Definition initial_system : training_system :=
  {| nodes := repeat empty_node MAX_TRAINING_NODES; active_nodes := 0; repository := [];
     metrics := zero_metrics |}.

Definition set_task (n : training_node) (t : training_task) : training_node :=
  {| node_id := node_id n; ip_address := ip_address n; port := port n; active := active n;
     node_resources := node_resources n; task := t; wallet := wallet n;
     mining_contribution := mining_contribution n; blocks_contributed := blocks_contributed n |}.

Definition set_utilization (n : training_node) (u : R) : training_node :=
  {| node_id := node_id n; ip_address := ip_address n; port := port n; active := active n;
     node_resources := {| cpu_cores := cpu_cores (node_resources n);
                          gpu_count := gpu_count (node_resources n);
                          memory_gb := memory_gb (node_resources n);
                          tflops := tflops (node_resources n);
                          current_utilization := u |};
     task := task n; wallet := wallet n;
     mining_contribution := mining_contribution n; blocks_contributed := blocks_contributed n |}.

Definition set_wallet (n : training_node) (w : Wallet.wallet) : training_node :=
  {| node_id := node_id n; ip_address := ip_address n; port := port n; active := active n;
     node_resources := node_resources n; task := task n; wallet := w;
     mining_contribution := mining_contribution n; blocks_contributed := blocks_contributed n |}.

Definition set_mining_stats (n : training_node) (contribution : R) (blocks : Z)
  : training_node :=
  {| node_id := node_id n; ip_address := ip_address n; port := port n; active := active n;
     node_resources := node_resources n; task := task n; wallet := wallet n;
     mining_contribution := contribution; blocks_contributed := blocks |}.

(** The decimal rendering of [rand() % 10] by [%u]. *)
Definition digit_string (d : Z) : string := String (ascii_of_nat (48 + Z.to_nat d)) EmptyString.

(** The [sprintf] of [model_id] in [assign_training_task] ([r] is the
    value of [rand()]). *)
Definition task_model_name (gpu : Z) (r : Z) : string :=
  if 0 <? gpu then ("transformer_gpt_" ++ digit_string (r mod 10))%string
  else ("mlp_classifier_" ++ digit_string (r mod 10))%string.

(** The search loop over [models[0 .. model_count-1]]. *)
Definition repo_mem (repo : list (string * R)) (id : string) : bool :=
  existsb (fun e => String.eqb (fst e) id) repo.

(** [if (!found && model_count < 100)]: append with best accuracy 0. *)
Definition repo_add (repo : list (string * R)) (id : string) : list (string * R) :=
  if negb (repo_mem repo id) && (Z.of_nat (List.length repo) <? 100)
  then repo ++ [(id, 0%R)] else repo.

(** [assign_training_task], lines 211-247; [r] is [rand()], [t] is
    [time(NULL)]. *)
Definition assign_training_task (repo : list (string * R)) (n : training_node) (r t : Z)
  : training_node * list (string * R) :=
  let gpu := gpu_count (node_resources n) in
  let id := task_model_name gpu r in
  (set_task n {| task_model_id := id; current_epoch := 0;
                 total_epochs := if 0 <? gpu then 100 else 50;
                 loss := 10%R; accuracy := 0%R; start_time := t; samples_processed := 0 |},
   repo_add repo id).

(** [simulate_training_progress], lines 291-311: [u1] and [u2] are the
    two draws [(double)rand() / RAND_MAX]; the node and the new
    [total_epochs_trained] are returned. *)
Definition simulate_training_progress (epochs_trained : Z) (n : training_node) (u1 u2 : R)
  : Z * training_node :=
  let tk := task n in
  let learning_rate := (1 / 100)%R in
  let noise := ((u1 - 1 / 2) * (1 / 10))%R in
  let loss1 := (loss tk * (1 - learning_rate + noise))%R in
  let loss2 := if Rlt_dec loss1 (1 / 100) then (1 / 100)%R else loss1 in
  let acc1 := (1 - loss2 / 10)%R in
  let acc2 := if Rlt_dec (99 / 100) acc1 then (99 / 100)%R else acc1 in
  ((epochs_trained + 1) mod 2 ^ 64,
   set_utilization
     (set_task n {| task_model_id := task_model_id tk;
                    current_epoch := (current_epoch tk + 1) mod 2 ^ 32;
                    total_epochs := total_epochs tk; loss := loss2; accuracy := acc2;
                    start_time := start_time tk;
                    samples_processed := (samples_processed tk + 50000) mod 2 ^ 64 |})
     (7 / 10 + u2 * (3 / 10))%R).

(** The [ai_verification_t] filled by [check_and_reward_improvement],
    lines 334-351 ([u] is the [rand()] draw of the consensus score). *)
Definition improvement_claim (n : training_node) (prev_accuracy : R) (active_nodes : Z)
    (u : R) : QXC.ai_verification :=
  {| QXC.model_id := task_model_id (task n);
     QXC.improvement_percentage := ((accuracy (task n) - prev_accuracy) * 100)%R;
     QXC.validation_loss := loss (task n);
     QXC.f1_score := (accuracy (task n) * (95 / 100))%R;
     QXC.precision := (accuracy (task n) * (97 / 100))%R;
     QXC.verifying_nodes := active_nodes;
     QXC.confirmations := if 3 <? active_nodes then active_nodes / 2 else 3;
     QXC.consensus_score := (85 / 100 + u * (15 / 100))%R |}.

(** [best_accuracies[model_idx]] for the first [model_idx] whose name
    matches. *)
Fixpoint repo_best (repo : list (string * R)) (id : string) : option R :=
  match repo with
  | [] => None
  | (m, b) :: rest => if String.eqb m id then Some b else repo_best rest id
  end.

(** [best_accuracies[model_idx] = acc]. *)
Fixpoint repo_set_best (repo : list (string * R)) (id : string) (acc : R)
  : list (string * R) :=
  match repo with
  | [] => []
  | (m, b) :: rest =>
      if String.eqb m id then (m, acc) :: rest else (m, b) :: repo_set_best rest id acc
  end.

(** [check_and_reward_improvement], lines 314-373: [submitted] is the
    result of [submit_ai_improvement(node->wallet, &verification)] and
    [balance_read] the value [get_wallet_balance] then returns. *)
Definition check_and_reward_improvement (repo : list (string * R)) (m : training_metrics)
    (active_nodes : Z) (n : training_node) (u : R) (submitted : bool) (balance_read : R)
  : list (string * R) * training_metrics * training_node :=
  match repo_best repo (task_model_id (task n)) with
  | None => (repo, m, n)
  | Some prev =>
      let improvement := ((accuracy (task n) - prev) * 100)%R in
      if Rlt_dec 1 improvement then
        if submitted then
          (repo_set_best repo (task_model_id (task n)) (accuracy (task n)),
           {| total_improvements := (total_improvements m + 1) mod 2 ^ 64;
              cumulative_accuracy_gain := (cumulative_accuracy_gain m + improvement)%R;
              total_epochs_trained := total_epochs_trained m;
              total_qxc_mined := balance_read |},
           set_mining_stats n (mining_contribution n + improvement)%R
             ((blocks_contributed n + 1) mod 2 ^ 64))
        else (repo, m, n)
      else (repo, m, n)
  end.

(** [finalize_training], lines 378-395: [node->wallet->balance += 0.1]
    (the ledger view of the same update is [QXC.finalize_training]). *)
Definition finalize_training (n : training_node) : training_node :=
  set_wallet n (Wallet.credit (wallet n) (1 / 10)%R).

(** The values one iteration of the sync loop reads from its environment. *)
Record sync_draws := {
  noise_draw : R;
  utilization_draw : R;
  consensus_draw : R;
  submitted : bool;
  balance_read : R;
  task_draw : Z;
  now : Z
}.

(** The body of the loop of [sync_thread_func], lines 262-281, for slot [i]. *)
Definition sync_node (sys : training_system) (i : nat) (d : sync_draws) : training_system :=
  match nth_error (nodes sys) i with
  | None => sys
  | Some n =>
      if negb (active n) then sys
      else
        let '(ete, n1) := simulate_training_progress (total_epochs_trained (metrics sys)) n
                            (noise_draw d) (utilization_draw d) in
        let m1 := {| total_improvements := total_improvements (metrics sys);
                     cumulative_accuracy_gain := cumulative_accuracy_gain (metrics sys);
                     total_epochs_trained := ete;
                     total_qxc_mined := total_qxc_mined (metrics sys) |} in
        let '(repo2, m2, n2) :=
          if (0 <? current_epoch (task n1)) && (current_epoch (task n1) mod 10 =? 0)
          then check_and_reward_improvement (repository sys) m1 (active_nodes sys) n1
                 (consensus_draw d) (submitted d) (balance_read d)
          else (repository sys, m1, n1) in
        let '(n3, repo3) :=
          if total_epochs (task n2) <=? current_epoch (task n2)
          then assign_training_task repo2 (finalize_training n2) (task_draw d) (now d)
          else (n2, repo2) in
        {| nodes := Wallet.store (nodes sys) i n3; active_nodes := active_nodes sys;
           repository := repo3; metrics := m2 |}
  end.

(** One pass of [sync_thread_func] over the node table. *)
Definition sync_round (sys : training_system) (draws : nat -> sync_draws) : training_system :=
  fold_left (fun s i => sync_node s i (draws i)) (seq 0 MAX_TRAINING_NODES) sys.

(** The slot search of [add_training_node] and [handle_node_connection]. *)
Fixpoint first_inactive (ns : list training_node) : option nat :=
  match ns with
  | [] => None
  | n :: rest => if active n then option_map S (first_inactive rest) else Some O
  end.

Definition default_resources : resources :=
  {| cpu_cores := 8; gpu_count := 1; memory_gb := 32; tflops := 10%R;
     current_utilization := 0%R |}.

(** [add_training_node], lines 420-456 ([sha256] as in [create_wallet],
    [r] and [t] the [rand()] and [time(NULL)] of [assign_training_task]):
    1 on success, 0 when every slot is active. *)
Definition add_training_node (sha256 : string -> list Z) (sys : training_system)
    (nid ip : string) (r t : Z) : Z * training_system :=
  match first_inactive (nodes sys) with
  | None => (0, sys)
  | Some i =>
      let old := nth i (nodes sys) empty_node in
      let n := {| node_id := nid; ip_address := ip;
                  port := (TRAINING_PORT + Z.of_nat i) mod 2 ^ 16; active := true;
                  node_resources := default_resources; task := task old;
                  wallet := Wallet.create_wallet sha256 nid;
                  mining_contribution := mining_contribution old;
                  blocks_contributed := blocks_contributed old |} in
      let '(n', repo') := assign_training_task (repository sys) n r t in
      (1, {| nodes := Wallet.store (nodes sys) i n';
             active_nodes := (active_nodes sys + 1) mod 2 ^ 32;
             repository := repo'; metrics := metrics sys |})
  end.

(** The fields the [sscanf] of [handle_node_connection] leaves in the
    slot. *)
Record registration := {
  reg_node_id : string;
  reg_cpu_cores : Z;
  reg_gpu_count : Z;
  reg_memory_gb : Z;
  reg_tflops : R
}.

(** [handle_node_connection], lines 153-208: [bytes] is the result of
    [recv], [client_ip] and [client_port] the peer's address. *)
Definition handle_node_connection (sha256 : string -> list Z) (sys : training_system)
    (bytes : Z) (reg : registration) (client_ip : string) (client_port : Z) (r t : Z)
  : training_system :=
  if bytes <=? 0 then sys
  else
    match first_inactive (nodes sys) with
    | None => sys
    | Some i =>
        let old := nth i (nodes sys) empty_node in
        let n := {| node_id := reg_node_id reg; ip_address := client_ip;
                    port := client_port; active := true;
                    node_resources := {| cpu_cores := reg_cpu_cores reg;
                                         gpu_count := reg_gpu_count reg;
                                         memory_gb := reg_memory_gb reg;
                                         tflops := reg_tflops reg;
                                         current_utilization :=
                                           current_utilization (node_resources old) |};
                    task := task old; wallet := Wallet.create_wallet sha256 (reg_node_id reg);
                    mining_contribution := mining_contribution old;
                    blocks_contributed := blocks_contributed old |} in
        let '(n', repo') := assign_training_task (repository sys) n r t in
        {| nodes := Wallet.store (nodes sys) i n';
           active_nodes := (active_nodes sys + 1) mod 2 ^ 32;
           repository := repo'; metrics := metrics sys |}
    end.

(** The states of the coordinator: registrations through
    [add_training_node] and [handle_node_connection], and passes of the
    sync thread. *)
Inductive trainer_reachable : training_system -> Prop :=
| tr_init : trainer_reachable initial_system
| tr_add : forall sha256 sys nid ip r t res sys',
    trainer_reachable sys -> add_training_node sha256 sys nid ip r t = (res, sys') ->
    trainer_reachable sys'
| tr_connect : forall sha256 sys bytes reg ip p r t,
    trainer_reachable sys ->
    trainer_reachable (handle_node_connection sha256 sys bytes reg ip p r t)
| tr_sync : forall sys draws,
    trainer_reachable sys -> trainer_reachable (sync_round sys draws).

(** Number of active slots. *)
Fixpoint count_active (ns : list training_node) : nat :=
  match ns with
  | [] => O
  | n :: rest => if active n then S (count_active rest) else count_active rest
  end.

(** The twenty names [task_model_name] can produce. *)
Definition model_names : list string :=
  map (fun d => ("transformer_gpt_" ++ digit_string (Z.of_nat d))%string) (seq 0 10)
  ++ map (fun d => ("mlp_classifier_" ++ digit_string (Z.of_nat d))%string) (seq 0 10).

(** The repository invariant: distinct names, all among [model_names],
    best accuracies in [0, 0.99]. *)
Definition repo_ok (repo : list (string * R)) : Prop :=
  NoDup (map fst repo) /\
  (forall e, In e repo -> In (fst e) model_names /\ (0 <= snd e <= 99 / 100)%R).

(** An active node trains a model of the repository, with its loss and
    accuracy inside the bounds [simulate_training_progress] keeps. *)
Definition node_ok (repo : list (string * R)) (n : training_node) : Prop :=
  active n = true ->
  repo_mem repo (task_model_id (task n)) = true /\
  (1 / 100 <= loss (task n))%R /\ (accuracy (task n) <= 99 / 100)%R.

Definition trainer_inv (sys : training_system) : Prop :=
  List.length (nodes sys) = MAX_TRAINING_NODES /\
  active_nodes sys = Z.of_nat (count_active (nodes sys)) /\
  repo_ok (repository sys) /\
  (forall n, In n (nodes sys) -> node_ok (repository sys) n).

End Trainer.

(* ------------------------------------------------------------------ *)
(** ** Submission, mining pools and payouts (qenex_coin.c) *)

Module Pool.
Import QXC.

Local Open Scope Z_scope.

Definition TRANSACTION_FEE : R := (1 / 1000)%R.
Definition MINING_TYPE_TRAINING_SPEED : Z := 2.

(** [mining_pool_t] (qenex_coin.h), with its [training_metrics] reduced to
    [active_nodes] and its [rewards] flattened. *)
Record mining_pool := {
  pool_id : string;
  active_miners : Z;
  total_hashrate : R;
  pool_active_nodes : Z;
  pool_balance : R;
  pending_rewards : R;
  payout_interval : Z
}.

Definition set_pending (p : mining_pool) (x : R) : mining_pool :=
  {| pool_id := pool_id p; active_miners := active_miners p; total_hashrate := total_hashrate p;
     pool_active_nodes := pool_active_nodes p; pool_balance := pool_balance p;
     pending_rewards := x; payout_interval := payout_interval p |}.

Definition set_active_miners (p : mining_pool) (k : Z) : mining_pool :=
  {| pool_id := pool_id p; active_miners := k; total_hashrate := total_hashrate p;
     pool_active_nodes := pool_active_nodes p; pool_balance := pool_balance p;
     pending_rewards := pending_rewards p; payout_interval := payout_interval p |}.

(** [active_pools[0 .. pool_count-1]] and [training_state.training_nodes]. *)
Record pool_registry := {
  active_pools : list mining_pool;
  training_nodes : Z
}.

Section Pools.

Variable sha256_hex : hash_input -> string.
Variable verify_transaction_signature : transaction -> bool.

(** Not in the repository: [request_distributed_verification], and what
    completes the claim while [submit_ai_improvement] waits; [claim_after_wait v]
    is the claim when the wait loop exits. *)
Variable claim_after_wait : ai_verification -> ai_verification.

(** [submit_ai_improvement], lines 362-389, for the wallet at [miner]:
    [None] is the return value 0, [Some] the mined block (return value 1). *)
Inductive submit_ai_improvement (st : qxc_state) (miner : string) (v : ai_verification)
    (t : Z) : option (qxc_state * block) -> Prop :=
| submit_no_consensus :
    confirmations (claim_after_wait v) < 3 -> submit_ai_improvement st miner v t None
| submit_mine : forall o,
    3 <= confirmations (claim_after_wait v) ->
    mine_block sha256_hex st miner (claim_after_wait v) t o ->
    submit_ai_improvement st miner v t o.

(** Not in the repository: [calculate_miner_contribution],
    [get_miner_address] and [generate_transaction_id] (the latter for the
    [i]-th payout). *)
Variable calculate_miner_contribution : mining_pool -> Z -> R.
Variable get_miner_address : mining_pool -> Z -> string.
Variable generate_transaction_id : Z -> string.

(** The reward transaction of miner [i] in [distribute_training_rewards]
    ([t] is [time(NULL)]); the fields the code leaves unset are empty. *)
Definition payout_tx (pool : mining_pool) (reward_per_miner : R) (t i : Z) : transaction :=
  let contribution_factor := calculate_miner_contribution pool i in
  {| tx_id := generate_transaction_id i; sender := "MINING_POOL";
     receiver := get_miner_address pool i;
     amount := (reward_per_miner * contribution_factor)%R; fee := TRANSACTION_FEE;
     tx_timestamp := t; signature := ""; contribution_type := MINING_TYPE_TRAINING_SPEED;
     contribution_score := contribution_factor; ai_model_ref := "" |}.

(** The payout loop, from miner [i], [k] iterations left. *)
Fixpoint pay_miners (st : qxc_state) (pool : mining_pool) (reward_per_miner : R) (t i : Z)
    (k : nat) : qxc_state :=
  match k with
  | O => st
  | S k' =>
      pay_miners (snd (process_transaction verify_transaction_signature st
                         (payout_tx pool reward_per_miner t i)))
        pool reward_per_miner t (i + 1) k'
  end.

(** [distribute_training_rewards], lines 284-313. *)
Definition distribute_training_rewards (st : qxc_state) (pool : mining_pool) (t : Z)
  : Z * qxc_state * mining_pool :=
  if Rle_dec (pending_rewards pool) 0 then (0, st, pool)
  else
    let reward_per_miner := (pending_rewards pool / IZR (active_miners pool))%R in
    (1, pay_miners st pool reward_per_miner t 0 (Z.to_nat (active_miners pool)),
     set_pending pool 0).

(** The pool loop of [continuous_training_thread], lines 256-261. *)
Fixpoint distribute_all (st : qxc_state) (ps : list mining_pool) (t : Z)
  : qxc_state * list mining_pool :=
  match ps with
  | [] => (st, [])
  | p :: rest =>
      let '(st1, p1) := if 0 <? active_miners p
                        then let '(_, st', p') := distribute_training_rewards st p t in (st', p')
                        else (st, p) in
      let '(st2, rest') := distribute_all st1 rest t in
      (st2, p1 :: rest')
  end.

(** Not in the repository: [generate_pool_id], [discover_training_nodes],
    [register_miner_in_pool] and [start_local_training_node]. *)
Variable generate_pool_id : nat -> string.
Variable discover_training_nodes : pool_registry -> pool_registry.
Variable register_miner_in_pool : mining_pool -> string -> mining_pool.
Variable start_local_training_node : pool_registry -> string -> pool_registry.

(** [integrate_with_distributed_training], lines 392-414; [None] when
    [active_pools[pool_count++]] is written past the 100 entries. *)
Definition integrate_with_distributed_training (reg : pool_registry) : option pool_registry :=
  let n := List.length (active_pools reg) in
  if (n <? 100)%nat then
    let main_pool := {| pool_id := generate_pool_id n; active_miners := 0; total_hashrate := 0;
                        pool_active_nodes := 0; pool_balance := 0; pending_rewards := 0;
                        payout_interval := 100 |}%R in
    Some (discover_training_nodes
            {| active_pools := active_pools reg ++ [main_pool];
               training_nodes := training_nodes reg |})
  else None.

(** [start_continuous_mining], lines 501-516, for the wallet at [address];
    [None] when no pool exists, as the final [printf] then dereferences the
    null [active_pools[0]]. *)
Definition start_continuous_mining (reg : pool_registry) (address : string)
  : option pool_registry :=
  match active_pools reg with
  | [] => None
  | p0 :: rest =>
      let p0' := register_miner_in_pool
                   (set_active_miners p0 ((active_miners p0 + 1) mod 2 ^ 32)) address in
      let reg1 := start_local_training_node
                    {| active_pools := p0' :: rest; training_nodes := training_nodes reg |}
                    address in
      Some {| active_pools := active_pools reg1;
              training_nodes := (training_nodes reg1 + 1) mod 2 ^ 32 |}
  end.

(** The pool table reached from the zero-initialised globals. *)
Inductive pools_reachable : pool_registry -> Prop :=
| pools_init : pools_reachable {| active_pools := []; training_nodes := 0 |}
| pools_integrate : forall reg reg',
    pools_reachable reg -> integrate_with_distributed_training reg = Some reg' ->
    pools_reachable reg'
| pools_mining : forall reg address reg',
    pools_reachable reg -> start_continuous_mining reg address = Some reg' ->
    pools_reachable reg'
| pools_distribute : forall reg st t,
    pools_reachable reg ->
    pools_reachable {| active_pools := snd (distribute_all st (active_pools reg) t);
                       training_nodes := training_nodes reg |}.

End Pools.

End Pool.

(* ------------------------------------------------------------------ *)
(** ** The kernel's improvement detectors (kernel_crypto_integration.c) *)

Module KernelDetect.
Import QXC.

Local Open Scope Z_scope.

(** The [kernel_stats] fields the detectors read. *)
Record kernel_stats := {
  uptime_seconds : Z;
  active_processes : Z;
  cpu_efficiency : R;
  memory_efficiency : R
}.

(** [detect_performance_improvement], lines 217-252: the static
    [baseline_performance] is passed in and returned; [Some] is the filled
    claim with return value 1. *)
Definition detect_performance_improvement (baseline_performance : R) (ks : kernel_stats)
  : option ai_verification * R :=
  let current_performance := (cpu_efficiency ks * memory_efficiency ks)%R in
  if Req_EM_T baseline_performance 0 then (None, current_performance)
  else
    let improvement :=
      ((current_performance - baseline_performance) / baseline_performance * 100)%R in
    if Rlt_dec 1 improvement then
      (Some {| model_id := "KERNEL_PERFORMANCE"; improvement_percentage := improvement;
               validation_loss := (1 / current_performance)%R;
               f1_score := current_performance; precision := cpu_efficiency ks;
               verifying_nodes := 5; confirmations := 3; consensus_score := (9 / 10)%R |},
       current_performance)
    else (None, baseline_performance).

(** [detect_memory_optimization], lines 255-282: [memory_freed] is
    [get_freed_memory_pages()], the static [prev_memory_freed] is passed in
    and returned; both are [uint64_t]. *)
Definition detect_memory_optimization (prev_memory_freed memory_freed : Z)
  : option ai_verification * Z :=
  if (prev_memory_freed + 1000) mod 2 ^ 64 <? memory_freed then
    let improvement := (IZR ((memory_freed - prev_memory_freed) mod 2 ^ 64) / 1000 * 10)%R in
    (Some {| model_id := "MEMORY_OPTIMIZER"; improvement_percentage := improvement;
             validation_loss := (1 / 10)%R; f1_score := (8 / 10)%R;
             precision := (85 / 100)%R; verifying_nodes := 5; confirmations := 3;
             consensus_score := (85 / 100)%R |},
     memory_freed)
  else (None, prev_memory_freed).

(** [detect_scheduler_improvement], lines 285-312: [scheduler_efficiency]
    is [get_scheduler_efficiency()], the static
    [prev_scheduler_efficiency] is passed in and returned. *)
Definition detect_scheduler_improvement (prev_scheduler_efficiency scheduler_efficiency : R)
  : option ai_verification * R :=
  let improvement := (scheduler_efficiency - prev_scheduler_efficiency)%R in
  if Rlt_dec (2 / 100) improvement then
    (Some {| model_id := "SCHEDULER_AI"; improvement_percentage := (improvement * 100)%R;
             validation_loss := (5 / 100)%R; f1_score := scheduler_efficiency;
             precision := (9 / 10)%R; verifying_nodes := 5; confirmations := 3;
             consensus_score := (88 / 100)%R |},
     scheduler_efficiency)
  else (None, prev_scheduler_efficiency).

End KernelDetect.

(* ------------------------------------------------------------------ *)
(** ** Facts about the binary64 view *)

Module Binary64Facts.
Import Binary64.
Local Open Scope float_scope.

(** A confirmation count of 2 makes the gate reject, whatever the
    floating-point fields hold. *)
Lemma verify_ai_improvement_two_confirmations (v : ai_verification) :
  confirmations v = 2%Z -> verify_ai_improvement v = false.
Proof.
  intros H. unfold verify_ai_improvement. rewrite H.
  destruct (improvement_percentage v <? 1.0); reflexivity.
Qed.

(** The admitted example of the spec: improvement 10, 3 confirmations,
    score 0.8, F1 0.6. *)
Lemma verify_ai_improvement_example :
  verify_ai_improvement
    {| improvement_percentage := 10.0; validation_loss := 0.25; f1_score := 0.6;
       precision := 0.875; verifying_nodes := 3; confirmations := 3;
       consensus_score := 0.8 |} = true.
Proof. vm_compute. reflexivity. Qed.

(** C1 (code_bug): the gate admits a submission whose improvement
    percentage is NaN: [NaN < 1.0] is false, so the first early return is
    skipped, although "improvement >= 1.0" does not hold for it. *)
Lemma verify_ai_improvement_admits_nan :
  verify_ai_improvement nan_improvement_claim = true /\
  (1.0 <=? improvement_percentage nan_improvement_claim) = false.
Proof. split; vm_compute; reflexivity. Qed.

(** C3 (code_bug): mining that NaN submission right after [qxc_init]
    (height 1, supply 100, block type 0) computes a NaN reward, so
    [previousSupply + reward <= MAX_SUPPLY] fails for the appended block
    (for a [log10] that returns NaN on NaN, as C99 Annex F requires). *)
Lemma nan_improvement_breaks_supply_cap (log10 : float -> float) :
  log10 nan = nan ->
  verify_ai_improvement nan_improvement_claim = true /\
  (INITIAL_REWARD
   + calculate_mining_reward log10 0 (improvement_percentage nan_improvement_claim)
       1 INITIAL_REWARD <=? MAX_SUPPLY) = false.
Proof.
  intros Hlog. split; [vm_compute; reflexivity |].
  unfold calculate_mining_reward. vm_compute in Hlog. vm_compute.
  rewrite Hlog. vm_compute. reflexivity.
Qed.

Lemma nan_improvement_breaks_supply_cap_witness :
  (fun _ : float => nan) nan = nan /\
  verify_ai_improvement nan_improvement_claim = true /\
  (INITIAL_REWARD
   + calculate_mining_reward (fun _ => nan) 0
       (improvement_percentage nan_improvement_claim) 1 INITIAL_REWARD <=? MAX_SUPPLY)
  = false.
Proof.
  split; [reflexivity |].
  apply (nan_improvement_breaks_supply_cap (fun _ => nan)). reflexivity.
Defined.

End Binary64Facts.

(* ------------------------------------------------------------------ *)
(** ** Facts about the real-number view *)

Module QXCFacts.
Import QXC.

(** *** Reward policy *)
















(** *** Chain verification *)

Lemma verify_blockchain_integrity_fst (sha : hash_input -> string) (st : qxc_state) :
  fst (verify_blockchain_integrity sha st) = fst (verify_from sha (blocks st)).
Proof.
  unfold verify_blockchain_integrity. destruct (verify_from sha (blocks st)); reflexivity.
Qed.

Lemma verify_from_cons2 (sha : hash_input -> string) (cur nxt : block) (rest : list block) :
  verify_from sha (cur :: nxt :: rest) =
  (if negb (String.eqb (hash cur) (prev_hash nxt)) then (0%Z, cur :: nxt :: rest)
   else
     let h := calculate_block_hash sha cur in
     if negb (String.eqb (hash cur) h) then (0%Z, set_hash cur h :: nxt :: rest)
     else let '(r, rest') := verify_from sha (nxt :: rest) in (r, set_hash cur h :: rest')).
Proof. reflexivity. Qed.

Lemma first_invalid_from_cons (digest : block -> string) (i : nat) (cur : block)
    (rest : list block) :
  first_invalid_from digest i (cur :: rest) =
  (if negb (String.eqb (hash cur) (digest cur)) then Some i
   else match rest with
        | nxt :: _ =>
            if negb (String.eqb (hash cur) (prev_hash nxt)) then Some i
            else first_invalid_from digest (S i) rest
        | [] => None
        end).
Proof. reflexivity. Qed.

Lemma verify_from_0_or_1 (sha : hash_input -> string) (bs : list block) :
  fst (verify_from sha bs) = 0%Z \/ fst (verify_from sha bs) = 1%Z.
Proof.
  induction bs as [|cur rest IH]; [right; reflexivity |].
  destruct rest as [|nxt rest']; [right; reflexivity |].
  rewrite verify_from_cons2. cbv zeta.
  destruct (String.eqb (hash cur) (prev_hash nxt)); cbn [negb]; [| left; reflexivity].
  destruct (String.eqb (hash cur) (calculate_block_hash sha cur)); cbn [negb];
    [| left; reflexivity].
  destruct (verify_from sha (nxt :: rest')) as [r rest''] eqn:E. exact IH.
Qed.

Lemma verify_from_valid (sha : hash_input -> string) (bs : list block) (i : nat) :
  first_invalid_from (calculate_block_hash sha) i bs = None ->
  fst (verify_from sha bs) = 1%Z.
Proof.
  revert i. induction bs as [|cur rest IH]; intros i H; [reflexivity |].
  destruct rest as [|nxt rest']; [reflexivity |].
  rewrite first_invalid_from_cons in H. rewrite verify_from_cons2. cbv zeta.
  destruct (String.eqb (hash cur) (calculate_block_hash sha cur)); cbn [negb] in *;
    [| discriminate].
  destruct (String.eqb (hash cur) (prev_hash nxt)); cbn [negb] in *; [| discriminate].
  specialize (IH (S i) H).
  destruct (verify_from sha (nxt :: rest')) as [r rest''] eqn:E. exact IH.
Qed.

Lemma verify_from_invalid (sha : hash_input -> string) (bs : list block) (i j : nat) :
  first_invalid_from (calculate_block_hash sha) i bs = Some j ->
  (S j < i + List.length bs)%nat ->
  fst (verify_from sha bs) = 0%Z.
Proof.
  revert i. induction bs as [|cur rest IH]; intros i H Hlen; [discriminate |].
  rewrite first_invalid_from_cons in H.
  destruct (String.eqb (hash cur) (calculate_block_hash sha cur)) eqn:Eh; cbn [negb] in H.
  - destruct rest as [|nxt rest']; [discriminate |].
    rewrite verify_from_cons2. cbv zeta.
    destruct (String.eqb (hash cur) (prev_hash nxt)) eqn:El; cbn [negb] in *;
      [| reflexivity].
    rewrite Eh. cbn [negb].
    assert (IH' : fst (verify_from sha (nxt :: rest')) = 0%Z).
    { apply (IH (S i) H). cbn [List.length] in *. lia. }
    destruct (verify_from sha (nxt :: rest')) as [r rest''] eqn:E. exact IH'.
  - injection H as <-. destruct rest as [|nxt rest']; [cbn [List.length] in Hlen; lia |].
    rewrite verify_from_cons2. cbv zeta.
    destruct (String.eqb (hash cur) (prev_hash nxt)); cbn [negb]; [| reflexivity].
    rewrite Eh. reflexivity.
Qed.

(** The loop never reads the stored hash of the last block. *)
Lemma verify_from_last_hash (sha : hash_input -> string) (bs : list block) (b : block)
    (h : string) :
  fst (verify_from sha (bs ++ [set_hash b h])) = fst (verify_from sha (bs ++ [b])).
Proof.
  induction bs as [|cur rest IH]; [reflexivity |].
  destruct rest as [|nxt rest'].
  - cbn [app]. rewrite !verify_from_cons2. cbv zeta.
    change (prev_hash (set_hash b h)) with (prev_hash b).
    destruct (String.eqb (hash cur) (prev_hash b)); cbn [negb]; [| reflexivity].
    destruct (String.eqb (hash cur) (calculate_block_hash sha cur)); reflexivity.
  - cbn [app] in *. rewrite !verify_from_cons2. cbv zeta.
    destruct (String.eqb (hash cur) (prev_hash nxt)); cbn [negb]; [| reflexivity].
    destruct (String.eqb (hash cur) (calculate_block_hash sha cur)); cbn [negb];
      [| reflexivity].
    destruct (verify_from sha (nxt :: rest' ++ [set_hash b h])) as [r1 l1] eqn:E1.
    destruct (verify_from sha (nxt :: rest' ++ [b])) as [r2 l2] eqn:E2.
    exact IH.
Qed.

(** What the loop does compute: a flag, 1 (valid) or 0; 1 when every block
    passes both checks (stored hash equal to the recomputed one, stored hash
    equal to the next block's [prev_hash]), and 0 when a block that has a
    successor fails one of them; the failing index is only printed. *)
Lemma verify_blockchain_integrity_flag (sha : hash_input -> string) (st : qxc_state) :
  let r := fst (verify_blockchain_integrity sha st) in
  (r = 0%Z \/ r = 1%Z) /\
  (first_invalid_from (calculate_block_hash sha) 0 (blocks st) = None -> r = 1%Z) /\
  (forall i, first_invalid_from (calculate_block_hash sha) 0 (blocks st) = Some i ->
             (S i < List.length (blocks st))%nat -> r = 0%Z).
Proof.
  intros r. unfold r. rewrite verify_blockchain_integrity_fst.
  split; [apply verify_from_0_or_1 |]. split.
  - apply verify_from_valid.
  - intros i H Hi. apply (verify_from_invalid sha (blocks st) 0 i H). lia.
Qed.

(** *** Reachable states *)

Lemma first_invalid_from_app (digest : block -> string) (bs : list block) (b : block)
    (i : nat) :
  bs <> [] ->
  first_invalid_from digest i bs = None ->
  hash b = digest b ->
  prev_hash b = hash (tail_of bs) ->
  first_invalid_from digest i (bs ++ [b]) = None.
Proof.
  unfold tail_of. revert i.
  induction bs as [|cur rest IH]; intros i Hne H Hb Hp; [contradiction |].
  rewrite first_invalid_from_cons in H.
  destruct (String.eqb (hash cur) (digest cur)) eqn:Eh; cbn [negb] in H; [| discriminate].
  destruct rest as [|nxt rest'].
  - cbn. rewrite Eh. cbn [negb].
    cbn in Hp. rewrite <- Hp, String.eqb_refl. cbn [negb].
    rewrite Hb, String.eqb_refl. reflexivity.
  - cbn [app first_invalid_from]. rewrite Eh. cbn [negb].
    destruct (String.eqb (hash cur) (prev_hash nxt)); cbn [negb] in *; [| discriminate].
    apply (IH (S i)); [discriminate | exact H | exact Hb |].
    rewrite Hp. reflexivity.
Qed.

Lemma process_transaction_success (sig : transaction -> bool) (st st' : qxc_state)
    (tx : transaction) :
  process_transaction sig st tx = (1%Z, st') ->
  blocks st' = blocks st /\ blockchain_height st' = blockchain_height st /\
  total_supply st' = total_supply st.
Proof.
  unfold process_transaction.
  destruct (sig tx); cbn [negb]; [| discriminate].
  destruct (Rlt_dec _ _); [discriminate |].
  destruct (Rlt_dec _ _); intros H; injection H as <-; repeat split.
Qed.

Lemma mined_block_hash (sha : hash_input -> string) (b : block) (n : Z) :
  hash (try_nonce sha b n) = calculate_block_hash sha (try_nonce sha b n).
Proof. reflexivity. Qed.

(** Every reachable chain is non-empty and passes the spec's walk. *)
Lemma reachable_chain_sound (sha : hash_input -> string) (sig : transaction -> bool)
    (st : qxc_state) :
  reachable sha sig st ->
  blocks st <> [] /\ first_invalid_from (calculate_block_hash sha) 0 (blocks st) = None.
Proof.
  induction 1 as [t | st miner proof t st' b Hr [Hne Hok] Hm
                  | st tx st' Hr [Hne Hok] Ht | st w Hr [Hne Hok]].
  - split; [discriminate |]. cbn. rewrite String.eqb_refl. reflexivity.
  - inversion Hm; subst. cbn [blocks append_block]. split.
    + destruct (blocks st); discriminate.
    + apply first_invalid_from_app; auto using mined_block_hash.
  - destruct (process_transaction_success sig st st' tx Ht) as [-> _]. auto.
  - auto.
Qed.

(** C4: every chain produced from [qxc_init] by successful mining (and by
    transfers and training bonuses, which leave the chain unchanged) is
    reported valid by [verify_blockchain_integrity]. *)
Theorem mined_chain_verifies (sha : hash_input -> string) (sig : transaction -> bool)
    (st : qxc_state) :
  reachable sha sig st -> fst (verify_blockchain_integrity sha st) = 1%Z.
Proof.
  intros Hr. rewrite verify_blockchain_integrity_fst.
  apply (verify_from_valid sha (blocks st) 0).
  apply (reachable_chain_sound sha sig st Hr).
Qed.
(** C5 (code_bug): the loop runs [while (current && current->next)], so
    the last block's hash is never recomputed: replacing the stored hash of
    the last block of any reachable chain by an arbitrary string still gets
    the chain reported valid (1). *)
Theorem verify_ignores_last_block_hash (sha : hash_input -> string)
    (sig : transaction -> bool) (st : qxc_state) (h : string) :
  reachable sha sig st -> fst (verify_blockchain_integrity sha (tamper_last_hash st h)) = 1%Z.
Proof.
  intros Hr. destruct (reachable_chain_sound sha sig st Hr) as [Hne Hok].
  rewrite verify_blockchain_integrity_fst. cbn [blocks tamper_last_hash].
  rewrite verify_from_last_hash. unfold tail_of. rewrite <- (app_removelast_last _ Hne).
  apply (verify_from_valid sha (blocks st) 0 Hok).
Qed.


(** *** Block indices *)

Lemma reachable_index_height (sha : hash_input -> string) (sig : transaction -> bool)
    (st : qxc_state) :
  reachable sha sig st ->
  (forall i b, nth_error (blocks st) i = Some b -> index b = (Z.of_nat i mod 2 ^ 32)%Z) /\
  blockchain_height st = (Z.of_nat (List.length (blocks st)) mod 2 ^ 32)%Z.
Proof.
  induction 1 as [t | st miner proof t st' b Hr [Hidx Hh] Hm
                  | st tx st' Hr [Hidx Hh] Ht | st w Hr [Hidx Hh]].
  - split; [| reflexivity].
    intros [|[|i]] b H; cbn in H; try discriminate.
    injection H as <-. reflexivity.
  - inversion Hm; subst. cbn [blocks blockchain_height append_block]. split.
    + intros i b Hb.
      destruct (Nat.lt_ge_cases i (List.length (blocks st))) as [Hlt|Hge].
      * rewrite nth_error_app1 in Hb by exact Hlt. exact (Hidx i b Hb).
      * rewrite nth_error_app2 in Hb by exact Hge.
        destruct (i - List.length (blocks st))%nat as [|k] eqn:Ek; cbn in Hb.
        -- injection Hb as <-. cbn. rewrite Hh. f_equal. lia.
        -- destruct k; discriminate.
    + rewrite Hh, length_app. cbn [List.length].
      rewrite Zplus_mod_idemp_l. f_equal. lia.
  - destruct (process_transaction_success sig st st' tx Ht) as [Hb [Hhh _]].
    rewrite Hb, Hhh. auto.
  - auto.
Qed.

(** C10 (amended): in every reachable state the block at position [i] has
    index [i mod 2^32] and [blockchain_height] is the number of blocks
    modulo 2^32: genesis has index 0 and each mining operation appends a
    block whose index is the [uint32_t] height before the append, the
    height then growing by one modulo 2^32. *)
Theorem block_index_is_position_mod_2_32 (sha : hash_input -> string)
    (sig : transaction -> bool) (st : qxc_state) :
  reachable sha sig st ->
  (forall i b, nth_error (blocks st) i = Some b -> index b = (Z.of_nat i mod 2 ^ 32)%Z) /\
  blockchain_height st = (Z.of_nat (List.length (blocks st)) mod 2 ^ 32)%Z.
Proof. apply reachable_index_height. Qed.

Lemma zeros_memcmp (k n : nat) : (memcmp_target (zeros k) n <=? 0)%Z = true.
Proof.
  revert k. induction n as [|n IH]; intros k; [reflexivity |].
  destruct k as [|k]; [reflexivity |]. cbn [zeros memcmp_target].
  exact (IH k).
Qed.

Lemma good_proof_admitted : verify_ai_improvement good_proof = true.
Proof.
  unfold verify_ai_improvement, good_proof. cbn [improvement_percentage confirmations
    consensus_score f1_score].
  destruct (Rlt_dec _ _); [lra |]. cbn.
  destruct (Rlt_dec _ _); [lra |].
  destruct (Rlt_dec _ _); [lra | reflexivity].
Qed.

(** With a digest that always meets the target, a mining step succeeds
    from every state, with nonce 0. *)
Lemma mine_always_succeeds (st : qxc_state) :
  mine_block all_zero_digest st "miner"%string good_proof 0
    (Some (append_block st "miner"%string
             (try_nonce all_zero_digest (candidate_block st "miner"%string good_proof 0) 0),
           try_nonce all_zero_digest (candidate_block st "miner"%string good_proof 0) 0)).
Proof.
  apply mine_found.
  - exact good_proof_admitted.
  - lia.
  - apply zeros_memcmp.
  - intros m Hm. lia.
Qed.

Lemma long_chain_reachable (n : nat) :
  exists st, reachable all_zero_digest reject_all_signatures st /\
             List.length (blocks st) = S n.
Proof.
  induction n as [|n [st [Hr Hlen]]].
  - exists (qxc_init all_zero_digest 0). split; [apply reach_init | reflexivity].
  - eexists. split.
    + eapply reach_mine; [exact Hr | apply mine_always_succeeds].
    + cbn [blocks append_block]. rewrite length_app, Hlen. cbn. lia.
Qed.

Lemma mined_once_reachable : reachable all_zero_digest reject_all_signatures mined_once.
Proof.
  eapply reach_mine; [exact (reach_init all_zero_digest reject_all_signatures 0) |].
  apply mine_always_succeeds.
Qed.

Lemma mined_chain_verifies_witness :
  reachable all_zero_digest reject_all_signatures mined_once /\
  List.length (blocks mined_once) = 2%nat /\
  fst (verify_blockchain_integrity all_zero_digest mined_once) = 1%Z.
Proof.
  split; [exact mined_once_reachable |]. split; [reflexivity |].
  exact (mined_chain_verifies all_zero_digest reject_all_signatures mined_once
           mined_once_reachable).
Defined.

Lemma verify_ignores_last_block_hash_witness :
  reachable all_zero_digest reject_all_signatures mined_once /\
  List.length (blocks mined_once) = 2%nat /\
  fst (verify_blockchain_integrity all_zero_digest (tamper_last_hash mined_once "forged")) = 1%Z /\
  first_invalid_from (calculate_block_hash all_zero_digest) 0
    (blocks (tamper_last_hash mined_once "forged")) = Some 1%nat.
Proof.
  split; [exact mined_once_reachable |]. split; [reflexivity |]. split; [| reflexivity].
  exact (verify_ignores_last_block_hash all_zero_digest reject_all_signatures mined_once
           "forged" mined_once_reachable).
Defined.

Lemma block_index_is_position_mod_2_32_witness :
  reachable all_zero_digest reject_all_signatures mined_once /\
  List.length (blocks mined_once) = 2%nat /\
  (forall i b, nth_error (blocks mined_once) i = Some b -> index b = (Z.of_nat i mod 2 ^ 32)%Z) /\
  blockchain_height mined_once = (Z.of_nat (List.length (blocks mined_once)) mod 2 ^ 32)%Z.
Proof.
  split; [exact mined_once_reachable |]. split; [reflexivity |].
  exact (block_index_is_position_mod_2_32 all_zero_digest reject_all_signatures mined_once
           mined_once_reachable).
Defined.


(** C10 (counterexample): after 2^32 successful mining operations the
    [uint32_t] height has wrapped, and the block at position 2^32 carries
    index 0. *)
Lemma block_index_wraps_at_2_32 :
  exists st b, reachable all_zero_digest reject_all_signatures st /\
    nth_error (blocks st) (Z.to_nat (2 ^ 32)) = Some b /\
    index b = 0%Z /\ index b <> Z.of_nat (Z.to_nat (2 ^ 32)).
Proof.
  set (N := Z.to_nat (2 ^ 32)).
  assert (HN : Z.of_nat N = (2 ^ 32)%Z) by (unfold N; rewrite Z2Nat.id; lia).
  clearbody N.
  destruct (long_chain_reachable N) as [st [Hr Hlen]].
  destruct (nth_error (blocks st) N) as [b|] eqn:Eb.
  - exists st, b. split; [exact Hr |]. split; [exact Eb |].
    destruct (reachable_index_height _ _ st Hr) as [Hidx _].
    rewrite (Hidx N b Eb), HN, Z_mod_same_full. split; [reflexivity | lia].
  - apply nth_error_None in Eb. lia.
Qed.

(** *** Supply *)













(** *** Balances *)

Lemma sumR_app (l l' : list R) : sumR (l ++ l') = (sumR l + sumR l')%R.
Proof.
  unfold sumR. induction l as [|x l IH]; cbn [app fold_right]; [lra | rewrite IH; lra].
Qed.

Lemma scan_transactions_sum (address : string) (txs : list transaction) (acc : R) :
  scan_transactions address txs acc
  = (acc + tx_credits address txs - tx_debits address txs)%R.
Proof.
  revert acc. induction txs as [|tx txs IH]; intros acc.
  - cbn. unfold tx_credits, tx_debits, sumR. cbn. lra.
  - cbn [scan_transactions]. rewrite IH.
    unfold tx_credits, tx_debits, sumR. cbn [map fold_right].
    fold (sumR (map (fun tx0 => if String.eqb (receiver tx0) address
                                then amount tx0 else 0%R) txs)).
    fold (sumR (map (fun tx0 => if String.eqb (sender tx0) address
                                then (amount tx0 + fee tx0)%R else 0%R) txs)).
    destruct (String.eqb (receiver tx) address);
    destruct (String.eqb (sender tx) address); lra.
Qed.

Lemma sumR_cons (x : R) (l : list R) : sumR (x :: l) = (x + sumR l)%R.
Proof. reflexivity. Qed.

Lemma derived_balance_cons (b : block) (bs : list block) (address : string) :
  derived_balance (b :: bs) address =
  ((if String.eqb (developer_id (ai_mining_data b)) address
    then reward_amount (ai_mining_data b) else 0%R)
   + tx_credits address (transactions b) - tx_debits address (transactions b)
   + derived_balance bs address)%R.
Proof.
  unfold derived_balance, reward_credits, tx_credits, tx_debits.
  cbn [flat_map map]. rewrite !map_app, !sumR_app, sumR_cons. lra.
Qed.

Lemma scan_blocks_sum (address : string) (bs : list block) (acc : R) :
  scan_blocks address bs acc = (acc + derived_balance bs address)%R.
Proof.
  revert acc. induction bs as [|b bs IH]; intros acc.
  - cbn. unfold derived_balance, reward_credits, tx_credits, tx_debits, sumR. cbn. lra.
  - cbn [scan_blocks]. rewrite IH, scan_transactions_sum, derived_balance_cons.
    destruct (String.eqb (developer_id (ai_mining_data b)) address); lra.
Qed.

(** C6: the balance query is a full scan of the chain: the reward of every
    block claimed by the address, plus the amount of every transaction it
    receives, minus amount plus fee of every transaction it sends. *)
Theorem get_wallet_balance_is_scan (bs : list block) (address : string) :
  get_wallet_balance bs address = derived_balance bs address.
Proof. unfold get_wallet_balance. rewrite scan_blocks_sum. lra. Qed.

(** C7 (counterexample): a transfer the genesis claimant can afford
    (chain-derived balance 100, amount 1, fee 0) still fails when the
    signature predicate rejects it. *)
Lemma transfer_rejected_by_signature :
  ~ (get_wallet_balance (blocks (qxc_init const_digest 0)) (sender foundation_transfer)
     < amount foundation_transfer + fee foundation_transfer)%R /\
  process_transaction reject_all_signatures (qxc_init const_digest 0) foundation_transfer
  = (0%Z, qxc_init const_digest 0).
Proof.
  split; [| reflexivity].
  rewrite get_wallet_balance_is_scan.
  unfold derived_balance, reward_credits, tx_credits, tx_debits, sumR. cbn.
  unfold INITIAL_REWARD. lra.
Qed.

(** C7 (amended): a transfer fails, with no state change, when the
    signature predicate rejects it or when the sender's chain-derived
    balance is below amount + fee; otherwise it succeeds, leaving the chain
    and the supply unchanged, and debits the sender's wallet balance by
    amount + fee and credits the receiver's by amount. *)
Theorem process_transaction_spec (sig : transaction -> bool) (st : qxc_state)
    (tx : transaction) :
  let need := (amount tx + fee tx)%R in
  let available := get_wallet_balance (blocks st) (sender tx) in
  ((sig tx = false \/ (available < need)%R) -> process_transaction sig st tx = (0%Z, st)) /\
  (sig tx = true -> ~ (available < need)%R ->
   exists st', process_transaction sig st tx = (1%Z, st') /\
     blocks st' = blocks st /\ total_supply st' = total_supply st /\
     balances st' = add_balance (add_balance (balances st) (sender tx) (- need)%R)
                      (receiver tx) (amount tx)).
Proof.
  intros need available. unfold process_transaction. fold available need. split.
  - intros [Hs|Hb].
    + rewrite Hs. reflexivity.
    + destruct (sig tx); [| reflexivity]. cbn [negb].
      destruct (Rlt_dec available need); [reflexivity | contradiction].
  - intros Hs Hb. rewrite Hs. cbn [negb].
    destruct (Rlt_dec available need); [contradiction |].
    destruct (Rlt_dec 0 (contribution_score tx)); eexists; split; try reflexivity;
      repeat split.
Qed.

(** C9: the [balance] field of a wallet and the balance derived from the
    chain diverge: after [qxc_init] and one [finalize_training] the wallet
    holds the 0.1 completion bonus, which no block records. *)
Theorem cached_balance_diverges (sha : hash_input -> string) (sig : transaction -> bool) :
  exists st address, reachable sha sig st /\
    balances st address <> get_wallet_balance (blocks st) address.
Proof.
  exists (finalize_training (qxc_init sha 0) "wallet"%string), "wallet"%string.
  split; [apply reach_finalize, reach_init |].
  rewrite get_wallet_balance_is_scan.
  unfold derived_balance, reward_credits, tx_credits, tx_debits, sumR. cbn.
  lra.
Qed.

End QXCFacts.

(* ------------------------------------------------------------------ *)
(** ** Facts about [create_wallet] *)

Module WalletFacts.
Import Wallet.

Local Open Scope Z_scope.

Lemma length_store {A : Type} (a : list A) (k : nat) (v : A) :
  List.length (store a k v) = List.length a.
Proof.
  revert k. induction a as [|x a IH]; intros [|k]; cbn; auto.
Qed.

Lemma nth_store {A : Type} (a : list A) (p k : nat) (v d : A) :
  nth k (store a p v) d =
  if Nat.eqb k p && Nat.ltb p (List.length a) then v else nth k a d.
Proof.
  revert p k. induction a as [|x a IH]; intros [|p] [|k]; cbn;
    try rewrite andb_false_r; auto.
Qed.

Lemma length_hex_step (buf : list Z) (i : nat) :
  List.length (hex_step buf i) = List.length buf.
Proof. unfold hex_step, sprintf_02x. rewrite !length_store. reflexivity. Qed.

Lemma length_fold_hex (l : list nat) (buf : list Z) :
  List.length (fold_left hex_step l buf) = List.length buf.
Proof.
  revert buf. induction l as [|i l IH]; intros buf; cbn; [reflexivity |].
  rewrite IH. apply length_hex_step.
Qed.

Lemma hex_step_agree (i : nat) (b b' : list Z) :
  List.length b = List.length b' -> agree (2 * i + 1) b b' ->
  agree (2 * i + 3) (hex_step b i) (hex_step b' i).
Proof.
  intros Hl Ha k Hk. unfold hex_step, sprintf_02x.
  assert (Hv : nth i b 0 = nth i b' 0) by (apply Ha; lia).
  rewrite !nth_store, !length_store, Hl, Hv.
  destruct (Nat.eqb k (2 * i + 2)) eqn:?; destruct (Nat.ltb (2 * i + 2) (List.length b')) eqn:?;
    cbn [andb]; try reflexivity;
  destruct (Nat.eqb k (2 * i + 1)) eqn:?; destruct (Nat.ltb (2 * i + 1) (List.length b')) eqn:?;
    cbn [andb]; try reflexivity;
  destruct (Nat.eqb k (2 * i)) eqn:?; destruct (Nat.ltb (2 * i) (List.length b')) eqn:?;
    cbn [andb]; try reflexivity.
  all: repeat match goal with
       | H : Nat.eqb _ _ = false |- _ => apply Nat.eqb_neq in H
       | H : Nat.eqb _ _ = true |- _ => apply Nat.eqb_eq in H
       | H : Nat.ltb _ _ = false |- _ => apply Nat.ltb_ge in H
       | H : Nat.ltb _ _ = true |- _ => apply Nat.ltb_lt in H
       end.
  all: first [apply Ha; lia | rewrite !nth_overflow by lia; reflexivity].
Qed.

Lemma fold_hex_agree (n i : nat) (b b' : list Z) :
  List.length b = List.length b' -> agree (2 * i + 1) b b' ->
  agree (2 * (i + n) + 1) (fold_left hex_step (seq i n) b) (fold_left hex_step (seq i n) b').
Proof.
  revert i b b'. induction n as [|n IH]; intros i b b' Hl Ha.
  - cbn. rewrite Nat.add_0_r. exact Ha.
  - cbn [seq fold_left].
    replace (2 * (i + S n) + 1)%nat with (2 * (S i + n) + 1)%nat by lia.
    apply IH; [rewrite !length_hex_step; exact Hl |].
    intros k Hk. apply hex_step_agree; [exact Hl | | lia].
    exact Ha.
Qed.

Lemma length_address_buffer (d : list Z) :
  List.length d = 32%nat -> List.length (address_buffer d) = 65%nat.
Proof. intros H. unfold address_buffer. rewrite length_app, repeat_length, H. reflexivity. Qed.

Lemma length_encode_address (d : list Z) :
  List.length d = 32%nat -> List.length (encode_address d) = 65%nat.
Proof.
  intros H. unfold encode_address. rewrite length_store, length_fold_hex.
  apply length_address_buffer, H.
Qed.

(** X1: [create_wallet]: the address is a function of the first byte of the
    digest alone.  From the second iteration on the loop reads back a
    character it has already written, so two developer ids whose SHA-256
    digests share their first byte get the same address; at most 256
    distinct addresses exist. *)
Theorem create_wallet_address_first_byte (sha256 : string -> list Z) (id id' : string) :
  List.length (sha256 id) = 32%nat -> List.length (sha256 id') = 32%nat ->
  nth 0 (sha256 id) 0 = nth 0 (sha256 id') 0 ->
  address (create_wallet sha256 id) = address (create_wallet sha256 id').
Proof.
  intros Hl Hl' H0. cbn [address create_wallet].
  set (d := sha256 id) in *. set (d' := sha256 id') in *.
  apply nth_ext with (d := 0) (d' := 0).
  - rewrite !length_encode_address; auto.
  - intros k Hk. rewrite length_encode_address in Hk by exact Hl.
    unfold encode_address. rewrite !nth_store, !length_fold_hex,
      !length_address_buffer by assumption.
    destruct (Nat.eqb k 64 && Nat.ltb 64 65); [reflexivity |].
    apply (fold_hex_agree 32 0 (address_buffer d) (address_buffer d'));
      [rewrite !length_address_buffer; auto | | lia].
    intros j Hj. replace j with 0%nat by lia. unfold address_buffer.
    rewrite !app_nth1 by lia. exact H0.
Qed.

(** [hex_step] writes two hex digits at [2i] and [2i+1]. *)
Lemma hex_digit_ok (n : Z) : 0 <= n < 16 -> is_hex_digit (hex_digit n) = true.
Proof.
  intros Hn. unfold is_hex_digit, hex_digit.
  destruct (n <? 10) eqn:E; [apply Z.ltb_lt in E | apply Z.ltb_ge in E];
    apply orb_true_iff; [left | right]; apply andb_true_iff; split; apply Z.leb_le; lia.
Qed.

Lemma fold_hex_digits (n i : nat) (b : list Z) :
  (i + n <= 32)%nat -> List.length b = 65%nat ->
  (forall k, (k < 2 * i)%nat -> is_hex_digit (nth k b 0) = true) ->
  forall k, (k < 2 * (i + n))%nat ->
  is_hex_digit (nth k (fold_left hex_step (seq i n) b) 0) = true.
Proof.
  revert i b. induction n as [|n IH]; intros i b Hin Hl Hh.
  - rewrite Nat.add_0_r. exact Hh.
  - cbn [seq fold_left]. replace (i + S n)%nat with (S i + n)%nat by lia.
    apply IH; [lia | rewrite length_hex_step; exact Hl |].
    intros k Hk. unfold hex_step, sprintf_02x.
    rewrite !nth_store, !length_store, Hl.
    assert (Hv : 0 <= nth i b 0 mod 256 < 256) by (apply Z.mod_pos_bound; lia).
    destruct (Nat.eqb k (2 * i + 2)) eqn:E2;
      [apply Nat.eqb_eq in E2; lia | apply Nat.eqb_neq in E2]. cbn [andb].
    destruct (Nat.eqb k (2 * i + 1)) eqn:E1.
    + replace (Nat.ltb (2 * i + 1) 65) with true by (symmetry; apply Nat.ltb_lt; lia).
      apply hex_digit_ok. apply Z.mod_pos_bound. lia.
    + cbn [andb]. destruct (Nat.eqb k (2 * i)) eqn:E0.
      * replace (Nat.ltb (2 * i) 65) with true by (symmetry; apply Nat.ltb_lt; lia).
        apply hex_digit_ok. split; [apply Z.div_pos; lia | apply Z.div_lt_upper_bound; lia].
      * cbn [andb]. apply Nat.eqb_neq in E0. apply Nat.eqb_neq in E1. apply Hh. lia.
Qed.

Lemma c_string_prefix (m : nat) (l : list Z) :
  (m < List.length l)%nat ->
  (forall k, (k < m)%nat -> nth k l 0 <> 0) -> nth m l 0 = 0 ->
  c_string l = firstn m l.
Proof.
  revert m. induction l as [|c l IH]; intros m Hm Hnz Hz; [cbn in Hm; lia |].
  destruct m as [|m].
  - cbn in Hz |- *. rewrite Hz. reflexivity.
  - cbn. assert (Hc : c <> 0) by (apply (Hnz 0%nat); lia).
    apply Z.eqb_neq in Hc. rewrite Hc. f_equal. apply IH.
    + cbn in Hm. lia.
    + intros k Hk. apply (Hnz (S k)). lia.
    + exact Hz.
Qed.

(** X2: [create_wallet]: the address, read as a C string, is 64 lowercase hex
    digits. *)
Theorem create_wallet_address_hex (sha256 : string -> list Z) (id : string) :
  List.length (sha256 id) = 32%nat ->
  let a := c_string (address (create_wallet sha256 id)) in
  List.length a = 64%nat /\ (forall k, (k < 64)%nat -> is_hex_digit (nth k a 0) = true).
Proof.
  intros Hl a. unfold a. cbn [address create_wallet].
  set (d := sha256 id) in *.
  assert (Hb : List.length (address_buffer d) = 65%nat) by (apply length_address_buffer, Hl).
  assert (Hh : forall k, (k < 64)%nat ->
            is_hex_digit (nth k (encode_address d) 0) = true).
  { intros k Hk. unfold encode_address. rewrite nth_store, length_fold_hex, Hb.
    replace (Nat.eqb k 64) with false by (symmetry; apply Nat.eqb_neq; lia). cbn [andb].
    apply (fold_hex_digits 32 0); [lia | exact Hb | intros j Hj; lia | lia]. }
  assert (Hc : c_string (encode_address d) = firstn 64 (encode_address d)).
  { apply c_string_prefix.
    - rewrite length_encode_address by exact Hl. lia.
    - intros k Hk Hz. specialize (Hh k Hk). rewrite Hz in Hh. discriminate.
    - unfold encode_address. rewrite nth_store, length_fold_hex, Hb. reflexivity. }
  rewrite Hc. split.
  - rewrite length_firstn, length_encode_address by exact Hl. reflexivity.
  - intros k Hk. rewrite nth_firstn.
    replace (Nat.ltb k 64) with true by (symmetry; apply Nat.ltb_lt; lia).
    apply Hh, Hk.
Qed.

Lemma create_wallet_address_first_byte_witness :
  List.length (sample_sha256 "node_a") = 32%nat /\
  List.length (sample_sha256 "node_b") = 32%nat /\
  nth 0 (sample_sha256 "node_a") 0 = nth 0 (sample_sha256 "node_b") 0 /\
  sample_sha256 "node_a" <> sample_sha256 "node_b" /\
  address (create_wallet sample_sha256 "node_a") = address (create_wallet sample_sha256 "node_b").
Proof.
  split; [reflexivity |]. split; [reflexivity |]. split; [reflexivity |].
  split; [intros H; apply (f_equal (fun l => nth 1 l 0)) in H; vm_compute in H; discriminate H |].
  apply create_wallet_address_first_byte; reflexivity.
Defined.

Lemma create_wallet_address_hex_witness :
  List.length (sample_sha256 "node_a") = 32%nat /\
  (let a := c_string (address (create_wallet sample_sha256 "node_a")) in
   List.length a = 64%nat /\ (forall k, (k < 64)%nat -> is_hex_digit (nth k a 0) = true)).
Proof.
  split; [reflexivity |]. apply create_wallet_address_hex. reflexivity.
Defined.

End WalletFacts.

(* ------------------------------------------------------------------ *)
(** ** Further facts about the ledger *)

Module LedgerFacts.
Import QXC QXCFacts.

(** X3: [calculate_difficulty] moves the tail's difficulty by at most one and
    never takes a difficulty of at least 1 below 1 (below [2^32 - 1], where
    the [uint32_t] increment does not wrap). *)
Theorem calculate_difficulty_step (bs : list block) (h : Z) :
  (1 <= difficulty (tail_of bs) < 2 ^ 32 - 1)%Z ->
  let d := difficulty (tail_of bs) in
  let d' := calculate_difficulty bs h in
  (1 <= d')%Z /\ (d - 1 <= d' <= d + 1)%Z.
Proof.
  intros Hd d d'. unfold d', calculate_difficulty. fold d.
  destruct (negb _); [lia |]. cbv zeta.
  destruct (Z.ltb _ _).
  - rewrite Z.mod_small by lia. lia.
  - destruct (Z.ltb _ _); [| lia].
    destruct (1 <? d)%Z eqn:E; [apply Z.ltb_lt in E | apply Z.ltb_ge in E]; lia.
Qed.

Lemma set_hash_blank (b : block) (h : string) :
  set_hash (set_hash b h) "" = set_hash b "".
Proof. reflexivity. Qed.

(** X4: [verify_blockchain_integrity] only ever rewrites stored hashes: with
    the [hash] fields blanked out, the chain it leaves is the chain it was
    given (no block dropped, reordered or otherwise changed). *)
Theorem verify_rewrites_only_hashes (sha : hash_input -> string) (st : qxc_state) :
  map (fun b => set_hash b "") (blocks (snd (verify_blockchain_integrity sha st)))
  = map (fun b => set_hash b "") (blocks st).
Proof.
  unfold verify_blockchain_integrity.
  destruct (verify_from sha (blocks st)) as [r bs] eqn:E. cbn [snd blocks].
  revert r bs E. generalize (blocks st) as l.
  induction l as [|cur rest IH]; intros r bs E; [cbn in E; injection E as _ <-; reflexivity |].
  destruct rest as [|nxt rest']; [cbn in E; injection E as _ <-; reflexivity |].
  rewrite verify_from_cons2 in E. cbv zeta in E.
  destruct (negb (String.eqb (hash cur) (prev_hash nxt))); [injection E as _ <-; reflexivity |].
  destruct (negb (String.eqb (hash cur) (calculate_block_hash sha cur)));
    [injection E as _ <-; reflexivity |].
  destruct (verify_from sha (nxt :: rest')) as [r' rest''] eqn:E'.
  injection E as _ <-. cbn [map]. rewrite (IH r' rest'' eq_refl). reflexivity.
Qed.

Lemma verify_from_sound_unchanged (sha : hash_input -> string) (bs : list block) (i : nat) :
  first_invalid_from (calculate_block_hash sha) i bs = None -> verify_from sha bs = (1%Z, bs).
Proof.
  revert i. induction bs as [|cur rest IH]; intros i H; [reflexivity |].
  destruct rest as [|nxt rest']; [reflexivity |].
  rewrite first_invalid_from_cons in H. rewrite verify_from_cons2. cbv zeta.
  destruct (String.eqb (hash cur) (calculate_block_hash sha cur)) eqn:Eh; cbn [negb] in *;
    [| discriminate].
  destruct (String.eqb (hash cur) (prev_hash nxt)); cbn [negb] in *; [| discriminate].
  rewrite (IH (S i) H). apply String.eqb_eq in Eh. rewrite <- Eh.
  destruct cur; reflexivity.
Qed.

(** X5: On every reachable state, [verify_blockchain_integrity] returns 1 and
    leaves the state exactly as it was: its write-back of recomputed hashes
    changes nothing there. *)
Theorem verify_reachable_no_change (sha : hash_input -> string) (sig : transaction -> bool)
    (st : qxc_state) :
  reachable sha sig st -> verify_blockchain_integrity sha st = (1%Z, st).
Proof.
  intros Hr. destruct (reachable_chain_sound sha sig st Hr) as [_ Hok].
  unfold verify_blockchain_integrity. rewrite (verify_from_sound_unchanged sha _ 0 Hok).
  destruct st; reflexivity.
Qed.

Lemma process_transaction_blocks (sig : transaction -> bool) (st : qxc_state)
    (tx : transaction) (r : Z) (st' : qxc_state) :
  process_transaction sig st tx = (r, st') ->
  blocks st' = blocks st /\ total_supply st' = total_supply st.
Proof.
  unfold process_transaction.
  destruct (sig tx); cbn [negb]; [| intros H; injection H as _ <-; auto].
  destruct (Rlt_dec _ _); [intros H; injection H as _ <-; auto |].
  destruct (Rlt_dec _ _); intros H; injection H as _ <-; auto.
Qed.

(** Invariant of the reachable states: no block carries a transaction, and
    the supply is the sum of the rewards of the blocks. *)
Lemma reachable_ledger_inv (sha : hash_input -> string) (sig : transaction -> bool)
    (st : qxc_state) :
  reachable sha sig st ->
  (forall b, In b (blocks st) -> transactions b = []) /\
  total_supply st = sumR (map (fun b => reward_amount (ai_mining_data b)) (blocks st)).
Proof.
  induction 1 as [t | st miner proof t st' b Hr [Htx Hs] Hm
                  | st tx st' Hr [Htx Hs] Ht | st w Hr [Htx Hs]].
  - split.
    + intros b [<- | []]. reflexivity.
    + cbn. unfold INITIAL_REWARD. lra.
  - inversion Hm; subst. cbn [blocks total_supply append_block]. split.
    + intros b' Hb'. apply in_app_or in Hb'. destruct Hb' as [Hb' | [<- | []]].
      * apply Htx, Hb'.
      * reflexivity.
    + rewrite map_app, sumR_app, Hs. cbn. lra.
  - destruct (process_transaction_blocks sig st tx 1 st' Ht) as [-> ->]. auto.
  - auto.
Qed.

(** X6: No reachable block carries a transaction: [mine_block] always appends
    a block with an empty transaction list and transfers never reach the
    chain. *)
Theorem reachable_blocks_no_transactions (sha : hash_input -> string)
    (sig : transaction -> bool) (st : qxc_state) :
  reachable sha sig st -> forall b, In b (blocks st) -> transactions b = [].
Proof. intros Hr. apply (reachable_ledger_inv sha sig st Hr). Qed.

(** X7: In every reachable state the supply is the sum of the rewards recorded
    in the blocks (genesis included). *)
Theorem reachable_supply_is_reward_sum (sha : hash_input -> string)
    (sig : transaction -> bool) (st : qxc_state) :
  reachable sha sig st ->
  total_supply st = sumR (map (fun b => reward_amount (ai_mining_data b)) (blocks st)).
Proof. intros Hr. apply (reachable_ledger_inv sha sig st Hr). Qed.

Lemma flat_map_nil_transactions (bs : list block) :
  (forall b, In b bs -> transactions b = []) -> flat_map transactions bs = [].
Proof.
  induction bs as [|b bs IH]; intros H; [reflexivity |].
  cbn [flat_map]. rewrite (H b (or_introl eq_refl)), IH; [reflexivity |].
  intros b' Hb'. apply H. right. exact Hb'.
Qed.

Lemma balance_is_rewards (sha : hash_input -> string) (sig : transaction -> bool)
    (st : qxc_state) (address : string) :
  reachable sha sig st ->
  get_wallet_balance (blocks st) address = reward_credits address (blocks st).
Proof.
  intros Hr. unfold get_wallet_balance. rewrite scan_blocks_sum.
  unfold derived_balance.
  rewrite (flat_map_nil_transactions (blocks st) (proj1 (reachable_ledger_inv sha sig st Hr))).
  unfold tx_credits, tx_debits, sumR. cbn. lra.
Qed.

Lemma reward_credits_unclaimed (address : string) (bs : list block) :
  (forall b, In b bs -> developer_id (ai_mining_data b) <> address) ->
  reward_credits address bs = 0%R.
Proof.
  induction bs as [|b bs IH]; intros H; [reflexivity |].
  unfold reward_credits. cbn [map]. rewrite sumR_cons. fold (reward_credits address bs).
  rewrite IH by (intros b' Hb'; apply H; right; exact Hb').
  destruct (String.eqb (developer_id (ai_mining_data b)) address) eqn:E;
    [apply String.eqb_eq in E; exfalso; exact (H b (or_introl eq_refl) E) | lra].
Qed.

Lemma unfunded_transfer_fails (sha : hash_input -> string) (sig : transaction -> bool)
    (st : qxc_state) (tx : transaction) :
  reachable sha sig st ->
  (forall b, In b (blocks st) -> developer_id (ai_mining_data b) <> sender tx) ->
  (0 < amount tx + fee tx)%R ->
  process_transaction sig st tx = (0%Z, st).
Proof.
  intros Hr Hns Hpos. unfold process_transaction.
  destruct (negb (sig tx)); [reflexivity |].
  rewrite (balance_is_rewards sha sig st (sender tx) Hr), reward_credits_unclaimed by exact Hns.
  destruct (Rlt_dec 0 (amount tx + fee tx)); [reflexivity | contradiction].
Qed.

(** X8: In a reachable state, an address that no block names as its
    [developer_id] cannot send: every transfer from it with a positive
    amount plus fee fails and leaves the state unchanged.  (A 64-character
    wallet address is never named so: [developer_id] then reads as the
    address followed by the model id.) *)
Theorem transfer_from_non_miner_fails (sha : hash_input -> string)
    (sig : transaction -> bool) (st : qxc_state) (tx : transaction) :
  reachable sha sig st ->
  (forall b, In b (blocks st) -> developer_id (ai_mining_data b) <> sender tx) ->
  (0 < amount tx + fee tx)%R ->
  process_transaction sig st tx = (0%Z, st).
Proof. apply unfunded_transfer_fails. Qed.

Lemma calculate_difficulty_step_witness :
  (1 <= difficulty (tail_of (blocks (qxc_init const_digest 0))) < 2 ^ 32 - 1)%Z /\
  (let d := difficulty (tail_of (blocks (qxc_init const_digest 0))) in
   let d' := calculate_difficulty (blocks (qxc_init const_digest 0)) 100 in
   (1 <= d')%Z /\ (d - 1 <= d' <= d + 1)%Z).
Proof.
  assert (H : (1 <= difficulty (tail_of (blocks (qxc_init const_digest 0))) < 2 ^ 32 - 1)%Z)
    by (cbn; lia).
  split; [exact H | apply calculate_difficulty_step; exact H].
Defined.

Lemma verify_reachable_no_change_witness :
  reachable all_zero_digest reject_all_signatures mined_once /\
  List.length (blocks mined_once) = 2%nat /\
  verify_blockchain_integrity all_zero_digest mined_once = (1%Z, mined_once).
Proof.
  split; [exact mined_once_reachable |]. split; [reflexivity |].
  exact (verify_reachable_no_change all_zero_digest reject_all_signatures mined_once
           mined_once_reachable).
Defined.

Lemma reachable_blocks_no_transactions_witness :
  exists st, reachable all_zero_digest reject_all_signatures st /\
    List.length (blocks st) = 2%nat /\ (forall b, In b (blocks st) -> transactions b = []).
Proof.
  eexists. split; [eapply reach_mine; [exact (reach_init all_zero_digest reject_all_signatures 0) | apply mine_always_succeeds] |].
  split; [reflexivity |].
  apply (reachable_blocks_no_transactions all_zero_digest reject_all_signatures).
  eapply reach_mine; [exact (reach_init all_zero_digest reject_all_signatures 0) | apply mine_always_succeeds].
Defined.

Lemma reachable_supply_is_reward_sum_witness :
  exists st, reachable all_zero_digest reject_all_signatures st /\
    List.length (blocks st) = 2%nat /\
    total_supply st = sumR (map (fun b => reward_amount (ai_mining_data b)) (blocks st)).
Proof.
  eexists. split; [eapply reach_mine; [exact (reach_init all_zero_digest reject_all_signatures 0) | apply mine_always_succeeds] |].
  split; [reflexivity |].
  apply (reachable_supply_is_reward_sum all_zero_digest reject_all_signatures).
  eapply reach_mine; [exact (reach_init all_zero_digest reject_all_signatures 0) | apply mine_always_succeeds].
Defined.

Lemma transfer_from_non_miner_fails_witness :
  let st := qxc_init const_digest 0 in
  let tx := {| tx_id := "t1"; sender := "alice"; receiver := "bob"; amount := 5%R;
               fee := (1 / 1000)%R; tx_timestamp := 0; signature := "sig";
               contribution_type := 0; contribution_score := 0%R; ai_model_ref := "" |} in
  reachable const_digest (fun _ => true) st /\
  (forall b, In b (blocks st) -> developer_id (ai_mining_data b) <> sender tx) /\
  (0 < amount tx + fee tx)%R /\
  process_transaction (fun _ => true) st tx = (0%Z, st).
Proof.
  intros st tx.
  assert (Hr : reachable const_digest (fun _ => true) st) by apply reach_init.
  assert (Hb : forall b, In b (blocks st) -> developer_id (ai_mining_data b) <> sender tx)
    by (intros b [<- | []]; cbn; discriminate).
  assert (Ha : (0 < amount tx + fee tx)%R) by (cbn; lra).
  split; [exact Hr |]. split; [exact Hb |]. split; [exact Ha |].
  apply (transfer_from_non_miner_fails const_digest); assumption.
Defined.

End LedgerFacts.

(* ------------------------------------------------------------------ *)
(** ** Facts about submission, pools and the kernel detectors *)

Module PoolFacts.
Import QXC QXCFacts LedgerFacts Pool.

(** X9: [submit_ai_improvement] behaves exactly as [mine_block] on the claim
    it ends up with: its own wait for 3 confirmations rejects nothing the
    gate of [mine_block] would admit. *)
Theorem submit_is_mine_block (sha : hash_input -> string)
    (claim_after_wait : ai_verification -> ai_verification) (st : qxc_state)
    (miner : string) (v : ai_verification) (t : Z) (o : option (qxc_state * block)) :
  submit_ai_improvement sha claim_after_wait st miner v t o <->
  mine_block sha st miner (claim_after_wait v) t o.
Proof.
  split.
  - intros H. inversion H as [Hc | o' Hc Hm]; subst; [| exact Hm].
    apply mine_rejected. unfold verify_ai_improvement.
    destruct (Rlt_dec _ _); [reflexivity |].
    replace (confirmations (claim_after_wait v) <? 3)%Z with true
      by (symmetry; apply Z.ltb_lt; exact Hc).
    reflexivity.
  - intros H. destruct (Z_lt_le_dec (confirmations (claim_after_wait v)) 3) as [Hc | Hc].
    + inversion H as [Hg | n Hg Hn Hp Hmin]; subst.
      * apply submit_no_consensus. exact Hc.
      * exfalso. unfold verify_ai_improvement in Hg.
        destruct (Rlt_dec _ _); [discriminate |].
        replace (confirmations (claim_after_wait v) <? 3)%Z with true in Hg
          by (symmetry; apply Z.ltb_lt; exact Hc).
        discriminate.
    + apply submit_mine; assumption.
Qed.



Lemma distribute_all_no_pending (sig : transaction -> bool)
    (cmc : mining_pool -> Z -> R) (gma : mining_pool -> Z -> string) (gti : Z -> string)
    (st : qxc_state) (ps : list mining_pool) (t : Z) :
  Forall (fun p => pending_rewards p = 0%R) ps ->
  distribute_all sig cmc gma gti st ps t = (st, ps).
Proof.
  induction ps as [|p ps IH]; intros H; [reflexivity |].
  inversion H as [|? ? Hp Hps]; subst. cbn [distribute_all].
  destruct (0 <? active_miners p)%Z.
  - unfold distribute_training_rewards at 1. rewrite Hp.
    destruct (Rle_dec 0 0) as [_ | Hn]; [| lra].
    rewrite (IH Hps). reflexivity.
  - rewrite (IH Hps). reflexivity.
Qed.

Lemma pools_inv (sig : transaction -> bool) (cmc : mining_pool -> Z -> R)
    (gma : mining_pool -> Z -> string) (gti : Z -> string) (gpi : nat -> string)
    (discover : pool_registry -> pool_registry)
    (register : mining_pool -> string -> mining_pool)
    (start_local : pool_registry -> string -> pool_registry) :
  (forall reg, Forall (fun p => pending_rewards p = 0%R) (active_pools reg) ->
               Forall (fun p => pending_rewards p = 0%R) (active_pools (discover reg))) ->
  (forall p a, pending_rewards (register p a) = pending_rewards p) ->
  (forall reg a, Forall (fun p => pending_rewards p = 0%R) (active_pools reg) ->
                 Forall (fun p => pending_rewards p = 0%R) (active_pools (start_local reg a))) ->
  forall reg, pools_reachable sig cmc gma gti gpi discover register start_local reg ->
  Forall (fun p => pending_rewards p = 0%R) (active_pools reg).
Proof.
  intros Hd Hreg Hs reg Hr.
  induction Hr as [| reg reg' Hr IH Hi | reg a reg' Hr IH Hm | reg st t Hr IH].
  - constructor.
  - unfold integrate_with_distributed_training in Hi.
    destruct (Nat.ltb _ 100); [| discriminate]. injection Hi as <-.
    apply Hd. cbn [active_pools]. apply Forall_app. split; [exact IH |].
    constructor; [reflexivity | constructor].
  - unfold start_continuous_mining in Hm.
    destruct (active_pools reg) as [|p0 rest] eqn:E; [discriminate |].
    injection Hm as <-. cbn [active_pools]. apply Hs. cbn [active_pools].
    inversion IH as [|? ? Hp0 Hrest]; subst.
    constructor; [| exact Hrest]. rewrite Hreg. exact Hp0.
  - cbn [active_pools]. rewrite (distribute_all_no_pending sig cmc gma gti st _ t IH).
    exact IH.
Qed.

(** X11: The pools of qenex_coin.c never hold pending rewards: a pool is
    created with none, and only [distribute_training_rewards] writes them
    (to 0).  So, as long as the helpers that are not in the repository
    leave them alone, every call of [distribute_training_rewards] from
    [continuous_training_thread] returns 0 and pays nobody. *)
Theorem pool_rewards_never_pending (sig : transaction -> bool) (cmc : mining_pool -> Z -> R)
    (gma : mining_pool -> Z -> string) (gti : Z -> string) (gpi : nat -> string)
    (discover : pool_registry -> pool_registry)
    (register : mining_pool -> string -> mining_pool)
    (start_local : pool_registry -> string -> pool_registry) (reg : pool_registry) :
  (forall reg, Forall (fun p => pending_rewards p = 0%R) (active_pools reg) ->
               Forall (fun p => pending_rewards p = 0%R) (active_pools (discover reg))) ->
  (forall p a, pending_rewards (register p a) = pending_rewards p) ->
  (forall reg a, Forall (fun p => pending_rewards p = 0%R) (active_pools reg) ->
                 Forall (fun p => pending_rewards p = 0%R) (active_pools (start_local reg a))) ->
  pools_reachable sig cmc gma gti gpi discover register start_local reg ->
  Forall (fun p => pending_rewards p = 0%R) (active_pools reg) /\
  (forall st t, distribute_all sig cmc gma gti st (active_pools reg) t = (st, active_pools reg)).
Proof.
  intros Hd Hreg Hs Hr.
  pose proof (pools_inv sig cmc gma gti gpi discover register start_local Hd Hreg Hs reg Hr)
    as Hinv.
  split; [exact Hinv |]. intros st t. apply distribute_all_no_pending, Hinv.
Qed.


Lemma pool_rewards_never_pending_witness :
  exists reg,
    pools_reachable (fun _ => true) (fun _ _ => 1%R) (fun _ _ => "miner"%string)
      (fun _ => "tx"%string) (fun _ => "pool_0"%string) (fun r => r) (fun p _ => p)
      (fun r _ => r) reg /\
    List.length (active_pools reg) = 1%nat /\
    Forall (fun p => pending_rewards p = 0%R) (active_pools reg) /\
    (forall st t, distribute_all (fun _ => true) (fun _ _ => 1%R) (fun _ _ => "miner"%string)
                    (fun _ => "tx"%string) st (active_pools reg) t = (st, active_pools reg)).
Proof.
  assert (Hr : pools_reachable (fun _ => true) (fun _ _ => 1%R) (fun _ _ => "miner"%string)
                 (fun _ => "tx"%string) (fun _ => "pool_0"%string) (fun r => r) (fun p _ => p)
                 (fun r _ => r)
                 {| active_pools := [{| pool_id := "pool_0"; active_miners := 0;
                                        total_hashrate := 0; pool_active_nodes := 0;
                                        pool_balance := 0; pending_rewards := 0;
                                        payout_interval := 100 |}%R];
                    training_nodes := 0 |})
    by (eapply pools_integrate; [apply pools_init | reflexivity]).
  eexists. split; [exact Hr |]. split; [reflexivity |].
  apply (pool_rewards_never_pending (fun _ => true) (fun _ _ => 1%R)
           (fun _ _ => "miner"%string) (fun _ => "tx"%string) (fun _ => "pool_0"%string)
           (fun r => r) (fun p _ => p) (fun r _ => r)); [| | | exact Hr].
  - intros r H; exact H.
  - intros p a; reflexivity.
  - intros r a H; exact H.
Defined.

End PoolFacts.

Module KernelDetectFacts.
Import QXC KernelDetect.

(** X12: [detect_memory_optimization]: whenever it reports an optimisation (and
    [prev_memory_freed + 1000] does not wrap), its claim passes the gate:
    more than 1000 freed pages make an improvement above 10%, and the
    confirmations, consensus score and F1 score are fixed at admitted
    values. *)
Theorem detect_memory_claim_admitted (prev_memory_freed memory_freed : Z)
    (v : ai_verification) :
  (0 <= prev_memory_freed)%Z -> (prev_memory_freed + 1000 < 2 ^ 64)%Z ->
  (memory_freed < 2 ^ 64)%Z ->
  fst (detect_memory_optimization prev_memory_freed memory_freed) = Some v ->
  verify_ai_improvement v = true.
Proof.
  intros Hp Hw Hm Hs. unfold detect_memory_optimization in Hs.
  rewrite (Z.mod_small (prev_memory_freed + 1000)) in Hs by lia.
  destruct (prev_memory_freed + 1000 <? memory_freed)%Z eqn:E; [| discriminate].
  apply Z.ltb_lt in E. cbn [fst] in Hs. injection Hs as <-.
  rewrite Z.mod_small by lia.
  assert (Hi : (1000 < IZR (memory_freed - prev_memory_freed))%R) by (apply IZR_lt; lia).
  unfold verify_ai_improvement. cbn [improvement_percentage confirmations consensus_score
    f1_score].
  destruct (Rlt_dec _ 1); [lra |]. cbn.
  destruct (Rlt_dec _ _); [lra |].
  destruct (Rlt_dec _ _); [lra | reflexivity].
Qed.

(** X13: [detect_performance_improvement]: a reported improvement passes the
    gate exactly when the current performance (the product of the CPU and
    memory efficiencies, sent as the F1 score) is at least 0.5. *)
Theorem detect_performance_claim_admitted (baseline_performance : R) (ks : kernel_stats)
    (v : ai_verification) :
  fst (detect_performance_improvement baseline_performance ks) = Some v ->
  verify_ai_improvement v = true <-> (1 / 2 <= cpu_efficiency ks * memory_efficiency ks)%R.
Proof.
  intros Hs. unfold detect_performance_improvement in Hs.
  destruct (Req_EM_T _ _); [discriminate |].
  destruct (Rlt_dec 1 _) as [Hi | Hi]; [| discriminate].
  cbn [fst] in Hs. injection Hs as <-.
  unfold verify_ai_improvement. cbn [improvement_percentage confirmations consensus_score
    f1_score].
  destruct (Rlt_dec _ 1); [lra |]. cbn.
  destruct (Rlt_dec _ _); [lra |].
  destruct (Rlt_dec _ _); split; intros H; try discriminate; lra.
Qed.

(** X14: [detect_scheduler_improvement]: a reported improvement passes the gate
    exactly when the new scheduler efficiency (sent as the F1 score) is at
    least 0.5. *)
Theorem detect_scheduler_claim_admitted (prev_scheduler_efficiency scheduler_efficiency : R)
    (v : ai_verification) :
  fst (detect_scheduler_improvement prev_scheduler_efficiency scheduler_efficiency) = Some v ->
  verify_ai_improvement v = true <-> (1 / 2 <= scheduler_efficiency)%R.
Proof.
  intros Hs. unfold detect_scheduler_improvement in Hs.
  destruct (Rlt_dec _ _) as [Hi | Hi]; [| discriminate].
  cbn [fst] in Hs. injection Hs as <-.
  unfold verify_ai_improvement. cbn [improvement_percentage confirmations consensus_score
    f1_score].
  destruct (Rlt_dec _ 1); [lra |]. cbn.
  destruct (Rlt_dec _ _); [lra |].
  destruct (Rlt_dec _ _); split; intros H; try discriminate; lra.
Qed.

Lemma detect_memory_claim_admitted_witness :
  exists v, (0 <= 0)%Z /\ (0 + 1000 < 2 ^ 64)%Z /\ (5000 < 2 ^ 64)%Z /\
    fst (detect_memory_optimization 0 5000) = Some v /\ verify_ai_improvement v = true.
Proof.
  eexists. split; [lia |]. split; [lia |]. split; [lia |]. split; [reflexivity |].
  apply (detect_memory_claim_admitted 0 5000); [lia | lia | lia | reflexivity].
Defined.

Lemma detect_performance_claim_admitted_witness :
  let ks := {| uptime_seconds := 0; active_processes := 0; cpu_efficiency := (9 / 10)%R;
               memory_efficiency := (9 / 10)%R |} in
  exists v, fst (detect_performance_improvement (1 / 2) ks) = Some v /\
    (verify_ai_improvement v = true <-> (1 / 2 <= cpu_efficiency ks * memory_efficiency ks)%R).
Proof.
  intros ks.
  assert (Hs : exists v, fst (detect_performance_improvement (1 / 2) ks) = Some v).
  { unfold detect_performance_improvement.
    destruct (Req_EM_T _ _) as [H0 | _]; [lra |].
    destruct (Rlt_dec 1 _) as [_ | Hn]; [eexists; reflexivity |].
    exfalso; apply Hn; cbn; lra. }
  destruct Hs as [v Hv]. exists v. split; [exact Hv |].
  apply (detect_performance_claim_admitted (1 / 2) ks). exact Hv.
Defined.

Lemma detect_scheduler_claim_admitted_witness :
  exists v, fst (detect_scheduler_improvement (1 / 2) (6 / 10)) = Some v /\
    (verify_ai_improvement v = true <-> (1 / 2 <= 6 / 10)%R).
Proof.
  assert (Hs : exists v, fst (detect_scheduler_improvement (1 / 2) (6 / 10)) = Some v).
  { unfold detect_scheduler_improvement.
    destruct (Rlt_dec _ _) as [_ | Hn]; [eexists; reflexivity | exfalso; apply Hn; lra]. }
  destruct Hs as [v Hv]. exists v. split; [exact Hv |].
  apply (detect_scheduler_claim_admitted (1 / 2) (6 / 10)). exact Hv.
Defined.

End KernelDetectFacts.

(* ------------------------------------------------------------------ *)
(** ** Facts about the training coordinator *)

Module TrainerFacts.
Import Trainer.

Local Open Scope Z_scope.

Lemma repo_mem_iff (repo : list (string * R)) (id : string) :
  repo_mem repo id = true <-> In id (map fst repo).
Proof.
  unfold repo_mem. rewrite existsb_exists. split.
  - intros [e [Hin Heq]]. apply String.eqb_eq in Heq. subst. apply in_map; exact Hin.
  - intros Hin. apply in_map_iff in Hin as [e [<- Hin]].
    exists e; split; [exact Hin | apply String.eqb_refl].
Qed.

Lemma length_model_names : List.length model_names = 20%nat.
Proof. reflexivity. Qed.

Lemma task_model_name_in (gpu r : Z) : In (task_model_name gpu r) model_names.
Proof.
  assert (Hr : 0 <= r mod 10 < 10) by (apply Z.mod_pos_bound; lia).
  unfold task_model_name, model_names.
  replace (r mod 10) with (Z.of_nat (Z.to_nat (r mod 10))) by (rewrite Z2Nat.id; lia).
  destruct (0 <? gpu); apply in_or_app; [left | right];
    apply in_map_iff; exists (Z.to_nat (r mod 10)); (split; [reflexivity | apply in_seq; lia]).
Qed.

Lemma repo_ok_nil : repo_ok [].
Proof. split; [constructor | intros e []]. Qed.

Lemma repo_ok_length (repo : list (string * R)) :
  repo_ok repo -> (List.length repo <= 20)%nat.
Proof.
  intros [Hnd Hin]. rewrite <- (length_map fst), <- length_model_names.
  apply NoDup_incl_length; [exact Hnd |].
  intros x Hx. apply in_map_iff in Hx as [e [<- He]]. apply (Hin e He).
Qed.

Lemma repo_add_mem (repo : list (string * R)) (id x : string) :
  repo_mem repo x = true -> repo_mem (repo_add repo id) x = true.
Proof.
  intros H. unfold repo_add.
  destruct (negb (repo_mem repo id) && _); [| exact H].
  apply repo_mem_iff. apply repo_mem_iff in H.
  rewrite map_app. apply in_or_app. left; exact H.
Qed.

Lemma repo_add_ok (repo : list (string * R)) (id : string) :
  repo_ok repo -> In id model_names ->
  repo_ok (repo_add repo id) /\ repo_mem (repo_add repo id) id = true.
Proof.
  intros Hok Hid. pose proof (repo_ok_length repo Hok) as Hlen.
  unfold repo_add. destruct (repo_mem repo id) eqn:Hm; cbn [negb andb].
  - split; [exact Hok | exact Hm].
  - replace (Z.of_nat (List.length repo) <? 100) with true by (symmetry; apply Z.ltb_lt; lia).
    destruct Hok as [Hnd Hin]. split; [split |].
    + rewrite map_app. apply NoDup_app; [exact Hnd | repeat constructor; intros [] |].
      intros a Ha Ha'. destruct Ha' as [Heq | []]. subst a.
      apply (proj2 (repo_mem_iff repo id)) in Ha. congruence.
    + intros e He. apply in_app_or in He as [He | [<- | []]].
      * apply (Hin e He).
      * cbn [fst snd]. split; [exact Hid | lra].
    + apply repo_mem_iff. rewrite map_app. apply in_or_app. right. left. reflexivity.
Qed.

Lemma repo_set_best_keys (repo : list (string * R)) (id : string) (acc : R) :
  map fst (repo_set_best repo id acc) = map fst repo.
Proof.
  induction repo as [| [m b] rest IH]; [reflexivity |].
  cbn [repo_set_best]. destruct (String.eqb m id); cbn; [reflexivity | f_equal; exact IH].
Qed.

Lemma repo_set_best_in (repo : list (string * R)) (id : string) (acc : R) (e : string * R) :
  In e (repo_set_best repo id acc) -> In e repo \/ e = (id, acc).
Proof.
  induction repo as [| [m b] rest IH]; cbn [repo_set_best]; [intros [] |].
  destruct (String.eqb_spec m id) as [-> | Hne].
  - intros [<- | He]; [right; reflexivity | left; right; exact He].
  - intros [<- | He]; [left; left; reflexivity |].
    destruct (IH He) as [H | H]; [left; right; exact H | right; exact H].
Qed.

Lemma repo_best_in (repo : list (string * R)) (id : string) (b : R) :
  repo_best repo id = Some b -> In (id, b) repo.
Proof.
  induction repo as [| [m b0] rest IH]; cbn [repo_best]; [discriminate |].
  destruct (String.eqb_spec m id) as [-> | Hne].
  - intros H. injection H as <-. left; reflexivity.
  - intros H. right; apply IH; exact H.
Qed.

Lemma repo_best_set (repo : list (string * R)) (id x : string) (acc : R) :
  repo_best (repo_set_best repo id acc) x =
  if String.eqb id x then option_map (fun _ => acc) (repo_best repo x) else repo_best repo x.
Proof.
  induction repo as [| [m b] rest IH]; cbn [repo_set_best repo_best].
  - destruct (String.eqb id x); reflexivity.
  - destruct (String.eqb_spec m id) as [-> | Hne]; cbn [repo_best].
    + destruct (String.eqb id x); reflexivity.
    + rewrite IH. destruct (String.eqb_spec m x) as [-> | Hmx].
      * rewrite (proj2 (String.eqb_neq id x)) by congruence. reflexivity.
      * reflexivity.
Qed.

(** What [check_and_reward_improvement] can change. *)
Lemma check_shape (repo : list (string * R)) (m : training_metrics) (k : Z)
    (n : training_node) (u : R) (s : bool) (bal : R) :
  let '(repo', _, n') := check_and_reward_improvement repo m k n u s bal in
  map fst repo' = map fst repo /\ task n' = task n /\ active n' = active n /\
  (repo_ok repo -> (accuracy (task n) <= 99 / 100)%R -> repo_ok repo').
Proof.
  unfold check_and_reward_improvement.
  destruct (repo_best repo (task_model_id (task n))) as [prev |] eqn:Hb;
    [| cbn beta iota; auto].
  destruct (Rlt_dec 1 _) as [Hi |]; [| cbn beta iota; auto].
  destruct s; [| cbn beta iota; auto].
  cbn beta iota. cbn [task active set_mining_stats].
  split; [apply repo_set_best_keys |]. split; [reflexivity |]. split; [reflexivity |].
  intros [Hnd Hin] Hacc. split.
  - rewrite repo_set_best_keys. exact Hnd.
  - intros e He. destruct (repo_set_best_in _ _ _ _ He) as [H | ->]; [apply Hin; exact H |].
    destruct (Hin _ (repo_best_in _ _ _ Hb)) as [Hm Hr]. cbn [fst snd] in *.
    split; [exact Hm | lra].
Qed.

(** What [simulate_training_progress] keeps and bounds. *)
Lemma simulate_shape (e : Z) (n : training_node) (u1 u2 : R) :
  let n' := snd (simulate_training_progress e n u1 u2) in
  active n' = active n /\ task_model_id (task n') = task_model_id (task n) /\
  total_epochs (task n') = total_epochs (task n) /\
  current_epoch (task n') = (current_epoch (task n) + 1) mod 2 ^ 32 /\
  (1 / 100 <= loss (task n'))%R /\ (accuracy (task n') <= 99 / 100)%R.
Proof.
  unfold simulate_training_progress. cbn [snd set_utilization set_task task active
    task_model_id total_epochs current_epoch loss accuracy].
  repeat split; try reflexivity;
    repeat destruct (Rlt_dec _ _); lra.
Qed.

Lemma node_ok_mono (repo repo' : list (string * R)) (n : training_node) :
  (forall x, repo_mem repo x = true -> repo_mem repo' x = true) ->
  node_ok repo n -> node_ok repo' n.
Proof.
  intros Hm Hn Ha. destruct (Hn Ha) as [H1 H2]. split; [apply Hm; exact H1 | exact H2].
Qed.

Lemma keys_mem (repo repo' : list (string * R)) :
  map fst repo' = map fst repo -> forall x, repo_mem repo x = true -> repo_mem repo' x = true.
Proof. intros Hk x. rewrite !repo_mem_iff, Hk. auto. Qed.

(** [assign_training_task] hands out a fresh task of a registered model. *)
Lemma assign_ok (repo : list (string * R)) (n : training_node) (r t : Z) :
  repo_ok repo -> active n = true ->
  let '(n', repo') := assign_training_task repo n r t in
  repo_ok repo' /\ node_ok repo' n' /\ active n' = true /\
  (forall x, repo_mem repo x = true -> repo_mem repo' x = true).
Proof.
  intros Hok Ha. unfold assign_training_task.
  destruct (repo_add_ok repo (task_model_name (gpu_count (node_resources n)) r) Hok
              (task_model_name_in _ _)) as [Hok' Hm].
  split; [exact Hok' |]. split; [| split; [exact Ha | intros x; apply repo_add_mem]].
  intros _. cbn [set_task task task_model_id loss accuracy]. split; [exact Hm | lra].
Qed.

Lemma count_active_le (l : list training_node) : (count_active l <= List.length l)%nat.
Proof. induction l as [| x l IH]; cbn; [lia | destruct (active x); lia]. Qed.

Lemma count_store (l : list training_node) (i : nat) (x y : training_node) :
  nth_error l i = Some x ->
  count_active (Wallet.store l i y) =
  (count_active l + (if active y then 1 else 0) - (if active x then 1 else 0))%nat.
Proof.
  revert i. induction l as [| z l IH]; intros [| i] H; cbn in H; try discriminate.
  - injection H as <-. cbn. destruct (active y), (active z); lia.
  - cbn. rewrite (IH i H).
    assert (Hle : ((if active x then 1 else 0) <= count_active l)%nat).
    { clear IH. revert i H. induction l as [| w l IH']; intros [| i] H; cbn in H;
        try discriminate; cbn.
      - injection H as ->. destruct (active x); lia.
      - specialize (IH' i H). destruct (active w); lia. }
    destruct (active z); lia.
Qed.

Lemma in_store (l : list training_node) (i : nat) (y z : training_node) :
  In z (Wallet.store l i y) -> In z l \/ z = y.
Proof.
  revert i. induction l as [| w l IH]; intros [| i]; cbn; try tauto.
  - intros [<- | H]; [right; reflexivity | left; right; exact H].
  - intros [<- | H]; [left; left; reflexivity |].
    destruct (IH i H); [left; right | right]; assumption.
Qed.

Lemma length_store_nodes (l : list training_node) (i : nat) (y : training_node) :
  List.length (Wallet.store l i y) = List.length l.
Proof. apply WalletFacts.length_store. Qed.

Lemma first_inactive_some (l : list training_node) (i : nat) :
  first_inactive l = Some i -> exists x, nth_error l i = Some x /\ active x = false.
Proof.
  revert i. induction l as [| x l IH]; intros i; cbn; [discriminate |].
  destruct (active x) eqn:Ha.
  - destruct (first_inactive l) as [j |]; cbn; [| discriminate].
    intros H. injection H as <-. apply IH. reflexivity.
  - intros H. injection H as <-. exists x. split; [reflexivity | exact Ha].
Qed.

Lemma first_inactive_none (l : list training_node) :
  first_inactive l = None -> count_active l = List.length l.
Proof.
  induction l as [| x l IH]; cbn; [reflexivity |].
  destruct (active x); [| discriminate].
  destruct (first_inactive l); cbn; [discriminate |]. intros _. rewrite IH; reflexivity.
Qed.

(** Placing an active node in the first inactive slot. *)
Lemma register_inv (sys : training_system) (i : nat) (n' : training_node)
    (repo' : list (string * R)) :
  trainer_inv sys -> first_inactive (nodes sys) = Some i -> active n' = true ->
  repo_ok repo' -> node_ok repo' n' ->
  (forall x, repo_mem (repository sys) x = true -> repo_mem repo' x = true) ->
  trainer_inv {| nodes := Wallet.store (nodes sys) i n';
                 active_nodes := (active_nodes sys + 1) mod 2 ^ 32;
                 repository := repo'; metrics := metrics sys |}.
Proof.
  intros [Hlen [Hcnt [Hok Hn]]] Hi Ha Hok' Hn' Hm.
  destruct (first_inactive_some _ _ Hi) as [x [Hx Hxa]].
  pose proof (count_store _ _ x n' Hx) as Hc. rewrite Ha, Hxa in Hc.
  pose proof (count_active_le (nodes sys)) as Hle.
  assert (Hlt : (count_active (nodes sys) < List.length (nodes sys))%nat).
  { assert (Hin : In x (nodes sys)) by (eapply nth_error_In; exact Hx).
    clear -Hin Hxa. induction (nodes sys) as [| w l IH]; [destruct Hin |].
    destruct Hin as [-> | Hin]; cbn.
    - rewrite Hxa. pose proof (count_active_le l). lia.
    - specialize (IH Hin). destruct (active w); lia. }
  unfold MAX_TRAINING_NODES in Hlen.
  unfold trainer_inv. cbn [nodes active_nodes repository]. split; [| split; [| split]].
  - rewrite length_store_nodes. exact Hlen.
  - rewrite Hc, Hcnt, Z.mod_small by lia. lia.
  - exact Hok'.
  - intros z Hz. destruct (in_store _ _ _ _ Hz) as [Hz' | ->]; [| exact Hn'].
    apply (node_ok_mono (repository sys)); [exact Hm | apply Hn; exact Hz'].
Qed.

Lemma add_inv (sha256 : string -> list Z) (sys sys' : training_system) (nid ip : string)
    (r t res : Z) :
  trainer_inv sys -> add_training_node sha256 sys nid ip r t = (res, sys') -> trainer_inv sys'.
Proof.
  intros Hinv. unfold add_training_node.
  destruct (first_inactive (nodes sys)) as [i |] eqn:Hi.
  - match goal with |- context [assign_training_task ?repo ?n r t] =>
      pose proof (assign_ok repo n r t (proj1 (proj2 (proj2 Hinv))) eq_refl) as Hass;
      destruct (assign_training_task repo n r t) as [n' repo'] end.
    destruct Hass as [Hok' [Hn' [Ha Hm]]].
    intros H. injection H as _ <-. apply register_inv; assumption.
  - intros H. injection H as _ <-. exact Hinv.
Qed.

Lemma connect_inv (sha256 : string -> list Z) (sys : training_system) (bytes : Z)
    (reg : registration) (ip : string) (p r t : Z) :
  trainer_inv sys -> trainer_inv (handle_node_connection sha256 sys bytes reg ip p r t).
Proof.
  intros Hinv. unfold handle_node_connection.
  destruct (bytes <=? 0); [exact Hinv |].
  destruct (first_inactive (nodes sys)) as [i |] eqn:Hi; [| exact Hinv].
  match goal with |- context [assign_training_task ?repo ?n r t] =>
    pose proof (assign_ok repo n r t (proj1 (proj2 (proj2 Hinv))) eq_refl) as Hass;
    destruct (assign_training_task repo n r t) as [n' repo'] end.
  destruct Hass as [Hok' [Hn' [Ha Hm]]]. apply register_inv; assumption.
Qed.

Lemma sync_node_inv (sys : training_system) (i : nat) (d : sync_draws) :
  trainer_inv sys -> trainer_inv (sync_node sys i d).
Proof.
  intros Hinv. unfold sync_node.
  destruct (nth_error (nodes sys) i) as [n |] eqn:Hnth; [| exact Hinv].
  destruct (active n) eqn:Ha; cbn [negb]; [| exact Hinv].
  destruct Hinv as [Hlen [Hcnt [Hok Hns]]].
  pose proof (Hns n (nth_error_In _ _ Hnth) Ha) as [Hmem _].
  pose proof (simulate_shape (total_epochs_trained (metrics sys)) n (noise_draw d)
                (utilization_draw d)) as Hs.
  destruct (simulate_training_progress _ n _ _) as [ete n1]. cbn [snd] in Hs.
  destruct Hs as [Ha1 [Hid1 [_ [_ [Hl1 Hacc1]]]]].
  cbv zeta.
  match goal with |- context [if ?c then check_and_reward_improvement ?repo ?m ?k n1 ?u ?s ?b
                              else ?e] =>
    assert (Hc : exists repo2 m2 n2,
               (if c then check_and_reward_improvement repo m k n1 u s b else e) =
               (repo2, m2, n2) /\
               map fst repo2 = map fst repo /\ task n2 = task n1 /\ active n2 = active n1 /\
               repo_ok repo2);
    [ destruct c;
      [ pose proof (check_shape repo m k n1 u s b) as Hcs;
        destruct (check_and_reward_improvement repo m k n1 u s b) as [[r2 m2] n2];
        destruct Hcs as [H1 [H2 [H3 H4]]]; exists r2, m2, n2;
        split; [reflexivity | split; [exact H1 | split; [exact H2 | split;
          [exact H3 | apply H4; assumption]]]]
      | eexists _, _, _; split; [reflexivity | split; [reflexivity | split; [reflexivity |
          split; [reflexivity | exact Hok]]]] ]
    | destruct Hc as [repo2 [m2 [n2 [Heq [Hk2 [Ht2 [Ha2 Hok2]]]]]]]; rewrite Heq ]
  end.
  assert (Hm2 : forall x, repo_mem (repository sys) x = true -> repo_mem repo2 x = true)
    by (apply keys_mem; exact Hk2).
  assert (Hn2 : node_ok repo2 n2).
  { intros _. rewrite Ht2. split; [| split; assumption].
    apply Hm2. rewrite Hid1. exact Hmem. }
  assert (Ha2' : active n2 = true) by congruence.
  assert (Hfin : active (finalize_training n2) = true) by exact Ha2'.
  match goal with |- context [if ?c then assign_training_task repo2 ?fn ?r ?t
                              else (n2, repo2)] =>
    assert (H3 : exists n3 repo3,
               (if c then assign_training_task repo2 fn r t else (n2, repo2)) = (n3, repo3) /\
               repo_ok repo3 /\ node_ok repo3 n3 /\ active n3 = true /\
               (forall x, repo_mem repo2 x = true -> repo_mem repo3 x = true));
    [ destruct c;
      [ pose proof (assign_ok repo2 fn r t Hok2 Hfin) as Has;
        destruct (assign_training_task repo2 fn r t) as [n3 repo3];
        exists n3, repo3; split; [reflexivity | exact Has]
      | exists n2, repo2; split; [reflexivity | split; [exact Hok2 | split; [exact Hn2 |
          split; [exact Ha2' | auto]]]] ]
    | destruct H3 as [n3 [repo3 [Heq3 H3]]]; rewrite Heq3 ]
  end.
  destruct H3 as [Hok3 [Hn3 [Ha3 Hm3]]].
  pose proof (count_store _ _ n n3 Hnth) as Hcs. rewrite Ha, Ha3 in Hcs.
  unfold trainer_inv. cbn [nodes active_nodes repository]. split; [| split; [| split]].
  - rewrite length_store_nodes. exact Hlen.
  - rewrite Hcs, Hcnt. f_equal. lia.
  - exact Hok3.
  - intros z Hz. destruct (in_store _ _ _ _ Hz) as [Hz' | ->]; [| exact Hn3].
    apply (node_ok_mono (repository sys)); [| apply Hns; exact Hz'].
    intros x Hx. apply Hm3, Hm2, Hx.
Qed.

Lemma sync_fold_inv (l : list nat) (draws : nat -> sync_draws) (sys : training_system) :
  trainer_inv sys -> trainer_inv (fold_left (fun s i => sync_node s i (draws i)) l sys).
Proof.
  revert sys. induction l as [| i l IH]; intros sys H; cbn; [exact H |].
  apply IH, sync_node_inv, H.
Qed.

Lemma count_active_empty (k : nat) : count_active (repeat empty_node k) = O.
Proof. induction k as [| k IH]; [reflexivity | exact IH]. Qed.

Lemma reachable_inv (sys : training_system) : trainer_reachable sys -> trainer_inv sys.
Proof.
  induction 1 as [| sha256 sys nid ip r t res sys' _ IH Hadd | sha256 sys bytes reg ip p r t _ IH
                  | sys draws _ IH].
  - split; [apply repeat_length |]. split; [| split; [apply repo_ok_nil |]].
    + cbn [nodes active_nodes initial_system]. rewrite count_active_empty. reflexivity.
    + intros n Hn. apply repeat_spec in Hn. subst n. intros H; discriminate H.
  - eapply add_inv; eassumption.
  - apply connect_inv, IH.
  - apply sync_fold_inv, IH.
Qed.

Lemma repo_mem_best (repo : list (string * R)) (id : string) :
  repo_mem repo id = true -> exists b, repo_best repo id = Some b.
Proof.
  induction repo as [| [m b] rest IH]; cbn; [discriminate |].
  destruct (String.eqb m id); cbn; [intros _; exists b; reflexivity | exact IH].
Qed.

Lemma first_inactive_none_active (l : list training_node) :
  first_inactive l = None -> forall n, In n l -> active n = true.
Proof.
  induction l as [| x l IH]; cbn; [intros _ n [] |].
  destruct (active x) eqn:Ha; [| discriminate].
  destruct (first_inactive l); cbn; [discriminate |].
  intros _ n [<- | Hn]; [exact Ha | apply IH; [reflexivity | exact Hn]].
Qed.

Lemma first_inactive_some_lt (l : list training_node) (i : nat) :
  first_inactive l = Some i -> (count_active l < List.length l)%nat.
Proof.
  revert i. induction l as [| x l IH]; intros i; cbn; [discriminate |].
  pose proof (count_active_le l).
  destruct (active x).
  - destruct (first_inactive l) as [j |] eqn:Hj; cbn; [| discriminate].
    intros _. specialize (IH j eq_refl). lia.
  - intros _. lia.
Qed.

(** [(total_nodes + 1) % 2^32] never wraps, and [add_training_node]
    fails exactly when the counter says the table is full. *)
Lemma register_count (sys : training_system) :
  trainer_reachable sys ->
  (first_inactive (nodes sys) = None <-> active_nodes sys = 1000) /\
  (first_inactive (nodes sys) <> None -> (active_nodes sys + 1) mod 2 ^ 32 = active_nodes sys + 1).
Proof.
  intros Hr. destruct (reachable_inv sys Hr) as [Hlen [Hcnt _]].
  unfold MAX_TRAINING_NODES in Hlen.
  destruct (first_inactive (nodes sys)) as [i |] eqn:Hi.
  - pose proof (first_inactive_some_lt _ _ Hi) as Hlt.
    split; [split; [discriminate | lia] |]. intros _. apply Z.mod_small. lia.
  - pose proof (first_inactive_none _ Hi) as Hc.
    split; [split; [intros _; lia | reflexivity] |]. intros H; exfalso; apply H; reflexivity.
Qed.

(* ---- The coordinator's properties ---- *)

(** X15: The node table of a reachable coordinator always has its 1000 slots,
    and [active_nodes] is exactly the number of active slots: it never
    wraps and is at most 1000. *)
Theorem trainer_registry_consistent (sys : training_system) :
  trainer_reachable sys ->
  List.length (nodes sys) = MAX_TRAINING_NODES /\
  active_nodes sys = Z.of_nat (count_active (nodes sys)) /\
  0 <= active_nodes sys <= 1000.
Proof.
  intros Hr. destruct (reachable_inv sys Hr) as [Hlen [Hcnt _]].
  pose proof (count_active_le (nodes sys)) as Hle. unfold MAX_TRAINING_NODES in *.
  split; [exact Hlen | split; [exact Hcnt | lia]].
Qed.

(** X16: The model repository holds distinct names, at most 20 of them (the
    [model_count < 100] guard never fails), and the model of every active
    node is in it, so [check_and_reward_improvement] always finds it. *)
Theorem trainer_repository_covers_active_nodes (sys : training_system) :
  trainer_reachable sys ->
  NoDup (map fst (repository sys)) /\ (List.length (repository sys) <= 20)%nat /\
  (forall n, In n (nodes sys) -> active n = true ->
   exists b, repo_best (repository sys) (task_model_id (task n)) = Some b).
Proof.
  intros Hr. destruct (reachable_inv sys Hr) as [_ [_ [Hok Hns]]].
  split; [apply Hok | split; [apply repo_ok_length, Hok |]].
  intros n Hn Ha. apply repo_mem_best. apply (Hns n Hn Ha).
Qed.

(** X17: Every best accuracy recorded in the repository is in [0, 0.99], and
    every active node has a loss of at least 0.01 and an accuracy of at
    most 0.99. *)
Theorem trainer_accuracy_bounds (sys : training_system) :
  trainer_reachable sys ->
  (forall e, In e (repository sys) -> (0 <= snd e <= 99 / 100)%R) /\
  (forall n, In n (nodes sys) -> active n = true ->
   (1 / 100 <= loss (task n))%R /\ (accuracy (task n) <= 99 / 100)%R).
Proof.
  intros Hr. destruct (reachable_inv sys Hr) as [_ [_ [[_ Hok] Hns]]].
  split; [intros e He; apply (Hok e He) | intros n Hn Ha; apply (Hns n Hn Ha)].
Qed.

(** X18: [add_training_node] returns 0 exactly when [active_nodes] is 1000,
    and the counter grows by the value returned. *)
Theorem add_training_node_result (sha256 : string -> list Z) (sys : training_system)
    (nid ip : string) (r t : Z) :
  trainer_reachable sys ->
  (fst (add_training_node sha256 sys nid ip r t) = 0 <-> active_nodes sys = 1000) /\
  active_nodes (snd (add_training_node sha256 sys nid ip r t)) =
  active_nodes sys + fst (add_training_node sha256 sys nid ip r t).
Proof.
  intros Hr. destruct (register_count sys Hr) as [Hfull Hwrap].
  unfold add_training_node.
  destruct (first_inactive (nodes sys)) as [i |] eqn:Hi.
  - destruct (assign_training_task _ _ r t) as [n' repo']. cbn [fst snd active_nodes].
    rewrite (Hwrap ltac:(discriminate)).
    split; [split; [discriminate | intros H; apply Hfull in H; discriminate] | reflexivity].
  - cbn [fst snd]. split; [split; [intros _; apply Hfull; reflexivity | reflexivity] | lia].
Qed.

(** X19: [handle_node_connection] registers a node exactly when [recv]
    returned data and the table is not full; [active_nodes] then grows
    by one, without wrapping. *)
Theorem handle_node_connection_count (sha256 : string -> list Z) (sys : training_system)
    (bytes : Z) (reg : registration) (ip : string) (p r t : Z) :
  trainer_reachable sys ->
  active_nodes (handle_node_connection sha256 sys bytes reg ip p r t) =
  if (0 <? bytes) && (active_nodes sys <? 1000) then active_nodes sys + 1
  else active_nodes sys.
Proof.
  intros Hr. destruct (register_count sys Hr) as [Hfull Hwrap].
  pose proof (proj2 (proj2 (trainer_registry_consistent sys Hr))) as Hb.
  unfold handle_node_connection.
  destruct (bytes <=? 0) eqn:Hbytes.
  - replace (0 <? bytes) with false by (symmetry; apply Z.ltb_ge; apply Z.leb_le in Hbytes;
      exact Hbytes). reflexivity.
  - replace (0 <? bytes) with true by (symmetry; apply Z.ltb_lt; apply Z.leb_gt in Hbytes;
      exact Hbytes). cbn [andb].
    destruct (first_inactive (nodes sys)) as [i |] eqn:Hi.
    + destruct (assign_training_task _ _ r t) as [n' repo']. cbn [active_nodes].
      rewrite (Hwrap ltac:(discriminate)).
      replace (active_nodes sys <? 1000) with true; [reflexivity |].
      symmetry. apply Z.ltb_lt.
      assert (active_nodes sys <> 1000) by (intros H; apply Hfull in H; discriminate). lia.
    + replace (active_nodes sys <? 1000) with false; [reflexivity |].
      symmetry. apply Z.ltb_ge. rewrite (proj1 Hfull eq_refl). lia.
Qed.

(** X20: The claim of a node whose accuracy gained more than one point passes
    [verify_ai_improvement] exactly when the F1 score it sends
    ([accuracy * 0.95]) is at least 0.5 and [active_nodes] is neither 4
    nor 5: for these [active_nodes / 2] gives 2 confirmations. *)
Theorem improvement_claim_admitted (n : training_node) (prev : R) (k : Z) (u : R) :
  (0 <= u)%R -> (1 < (accuracy (task n) - prev) * 100)%R ->
  QXC.verify_ai_improvement (improvement_claim n prev k u) = true <->
  (k <> 4 /\ k <> 5 /\ (1 / 2 <= accuracy (task n) * (95 / 100))%R).
Proof.
  intros Hu Hi. unfold QXC.verify_ai_improvement, improvement_claim.
  cbn [QXC.improvement_percentage QXC.confirmations QXC.consensus_score QXC.f1_score].
  destruct (Rlt_dec _ 1); [lra |].
  assert (Hc : ((if 3 <? k then k / 2 else 3) <? 3) = true <-> k = 4 \/ k = 5).
  { destruct (3 <? k) eqn:Hk; [apply Z.ltb_lt in Hk | apply Z.ltb_ge in Hk];
      rewrite Z.ltb_lt; pose proof (Z.div_mod k 2 ltac:(lia));
      pose proof (Z.mod_pos_bound k 2 ltac:(lia)); split; intros; lia. }
  destruct ((if 3 <? k then k / 2 else 3) <? 3) eqn:E.
  - split; [discriminate |]. intros [H4 [H5 _]].
    destruct (proj1 Hc eq_refl); contradiction.
  - destruct (Rlt_dec _ (75 / 100)); [lra |].
    destruct (Rlt_dec _ (1 / 2)) as [Hf | Hf].
    + split; [discriminate | intros [_ [_ H]]; lra].
    + split; [intros _ | reflexivity].
      split; [| split]; [intros Hk; discriminate (proj2 Hc (or_introl Hk))
                       | intros Hk; discriminate (proj2 Hc (or_intror Hk))
                       | lra].
Qed.

(** X21: [check_and_reward_improvement] keeps the repository's model names and
    never lowers a best accuracy; a best accuracy it changes grows by
    more than 0.01. *)
Theorem check_and_reward_best_monotone (repo : list (string * R)) (m : training_metrics)
    (k : Z) (n : training_node) (u : R) (s : bool) (bal : R) :
  let repo' := fst (fst (check_and_reward_improvement repo m k n u s bal)) in
  map fst repo' = map fst repo /\
  (forall id b, repo_best repo id = Some b ->
   exists b', repo_best repo' id = Some b' /\ (b' = b \/ (b + 1 / 100 < b')%R)).
Proof.
  cbv zeta. unfold check_and_reward_improvement.
  destruct (repo_best repo (task_model_id (task n))) as [prev |] eqn:Hb;
    [| cbn; split; [reflexivity | intros id b H; exists b; auto]].
  destruct (Rlt_dec 1 _) as [Hi |]; [| cbn; split; [reflexivity | intros id b H; exists b; auto]].
  destruct s; [| cbn; split; [reflexivity | intros id b H; exists b; auto]].
  cbn [fst]. split; [apply repo_set_best_keys |].
  intros id b H. rewrite repo_best_set.
  destruct (String.eqb_spec (task_model_id (task n)) id) as [<- | Hne].
  - rewrite H. rewrite Hb in H. injection H as <-. cbn.
    exists (accuracy (task n)). split; [reflexivity | right; lra].
  - exists b. split; [exact H | left; reflexivity].
Qed.

(** X22: One epoch of [simulate_training_progress] with a draw in [0, 1]
    multiplies the loss by a factor in [0.94, 1.04], floored at 0.01, and
    sets the accuracy to [1 - loss / 10], capped at 0.99. *)
Theorem simulate_training_progress_bounds (e : Z) (n : training_node) (u1 u2 : R) :
  (0 <= u1 <= 1)%R -> (0 <= loss (task n))%R ->
  let n' := snd (simulate_training_progress e n u1 u2) in
  (Rmax (1 / 100) (loss (task n) * (94 / 100)) <= loss (task n'))%R /\
  (loss (task n') <= Rmax (1 / 100) (loss (task n) * (104 / 100)))%R /\
  accuracy (task n') = Rmin (99 / 100) (1 - loss (task n') / 10).
Proof.
  intros Hu Hl. unfold simulate_training_progress.
  cbn [snd set_utilization set_task task loss accuracy].
  set (l := loss (task n)). assert (Hl' : (0 <= l)%R) by exact Hl. clearbody l.
  assert (H0 : (0 <= l * u1)%R) by (apply Rmult_le_pos; lra).
  assert (H1 : (l * u1 <= l * 1)%R) by (apply Rmult_le_compat_l; lra).
  unfold Rmax, Rmin.
  repeat match goal with
         | |- context [Rlt_dec ?a ?b] => destruct (Rlt_dec a b)
         | |- context [Rle_dec ?a ?b] => destruct (Rle_dec a b)
         end; split; try split; try reflexivity; try lra.
Qed.

Lemma trainer_registry_consistent_witness :
  exists sys, trainer_reachable sys /\ active_nodes sys = 1 /\
    List.length (nodes sys) = MAX_TRAINING_NODES /\
    active_nodes sys = Z.of_nat (count_active (nodes sys)) /\
    0 <= active_nodes sys <= 1000.
Proof.
  assert (Hr : trainer_reachable (snd (add_training_node Wallet.sample_sha256 initial_system
                                        "node_a" "10.0.0.1" 3 0)))
    by (eapply tr_add; [apply tr_init | apply surjective_pairing]).
  eexists. split; [exact Hr |]. split; [reflexivity |].
  apply trainer_registry_consistent. exact Hr.
Defined.

Lemma trainer_repository_covers_active_nodes_witness :
  exists sys, trainer_reachable sys /\ active_nodes sys = 1 /\
    NoDup (map fst (repository sys)) /\ (List.length (repository sys) <= 20)%nat /\
    (forall n, In n (nodes sys) -> active n = true ->
     exists b, repo_best (repository sys) (task_model_id (task n)) = Some b).
Proof.
  assert (Hr : trainer_reachable (snd (add_training_node Wallet.sample_sha256 initial_system
                                        "node_a" "10.0.0.1" 3 0)))
    by (eapply tr_add; [apply tr_init | apply surjective_pairing]).
  eexists. split; [exact Hr |]. split; [reflexivity |].
  apply trainer_repository_covers_active_nodes. exact Hr.
Defined.

Lemma trainer_accuracy_bounds_witness :
  exists sys, trainer_reachable sys /\ active_nodes sys = 1 /\
    (forall e, In e (repository sys) -> (0 <= snd e <= 99 / 100)%R) /\
    (forall n, In n (nodes sys) -> active n = true ->
     (1 / 100 <= loss (task n))%R /\ (accuracy (task n) <= 99 / 100)%R).
Proof.
  assert (Hr : trainer_reachable (snd (add_training_node Wallet.sample_sha256 initial_system
                                        "node_a" "10.0.0.1" 3 0)))
    by (eapply tr_add; [apply tr_init | apply surjective_pairing]).
  eexists. split; [exact Hr |]. split; [reflexivity |].
  apply trainer_accuracy_bounds. exact Hr.
Defined.

Lemma add_training_node_result_witness :
  trainer_reachable initial_system /\
  (fst (add_training_node Wallet.sample_sha256 initial_system "node_a" "10.0.0.1" 3 0) = 0
   <-> active_nodes initial_system = 1000) /\
  active_nodes (snd (add_training_node Wallet.sample_sha256 initial_system "node_a"
                       "10.0.0.1" 3 0)) =
  active_nodes initial_system
  + fst (add_training_node Wallet.sample_sha256 initial_system "node_a" "10.0.0.1" 3 0).
Proof.
  split; [apply tr_init |]. apply add_training_node_result. apply tr_init.
Defined.

Lemma handle_node_connection_count_witness :
  let reg := {| reg_node_id := "node_b"; reg_cpu_cores := 4; reg_gpu_count := 0;
                reg_memory_gb := 16; reg_tflops := 2%R |} in
  trainer_reachable initial_system /\
  active_nodes (handle_node_connection Wallet.sample_sha256 initial_system 64 reg
                  "10.0.0.2" 40000 5 0) =
  (if (0 <? 64) && (active_nodes initial_system <? 1000) then active_nodes initial_system + 1
   else active_nodes initial_system).
Proof.
  intros reg. split; [apply tr_init |]. apply handle_node_connection_count. apply tr_init.
Defined.

Lemma improvement_claim_admitted_witness :
  let n := set_task empty_node
             {| task_model_id := "mlp_classifier_3"; current_epoch := 10; total_epochs := 50;
                loss := (1 / 2)%R; accuracy := (9 / 10)%R; start_time := 0;
                samples_processed := 500000 |} in
  (0 <= 1 / 2)%R /\ (1 < (accuracy (task n) - 1 / 2) * 100)%R /\
  (QXC.verify_ai_improvement (improvement_claim n (1 / 2) 4 (1 / 2)) = true <->
   (4 <> 4 /\ 4 <> 5 /\ (1 / 2 <= accuracy (task n) * (95 / 100))%R)).
Proof.
  intros n.
  assert (H0 : (0 <= 1 / 2)%R) by lra.
  assert (H1 : (1 < (accuracy (task n) - 1 / 2) * 100)%R) by (cbn; lra).
  split; [exact H0 |]. split; [exact H1 |]. apply improvement_claim_admitted; assumption.
Defined.

Lemma simulate_training_progress_bounds_witness :
  let n := set_task empty_node
             {| task_model_id := "mlp_classifier_3"; current_epoch := 10; total_epochs := 50;
                loss := (1 / 2)%R; accuracy := (9 / 10)%R; start_time := 0;
                samples_processed := 500000 |} in
  (0 <= 1 / 4 <= 1)%R /\ (0 <= loss (task n))%R /\
  (let n' := snd (simulate_training_progress 10 n (1 / 4) (1 / 2)) in
   (Rmax (1 / 100) (loss (task n) * (94 / 100)) <= loss (task n'))%R /\
   (loss (task n') <= Rmax (1 / 100) (loss (task n) * (104 / 100)))%R /\
   accuracy (task n') = Rmin (99 / 100) (1 - loss (task n') / 10)).
Proof.
  intros n.
  assert (H0 : (0 <= 1 / 4 <= 1)%R) by lra.
  assert (H1 : (0 <= loss (task n))%R) by (cbn; lra).
  split; [exact H0 |]. split; [exact H1 |]. apply simulate_training_progress_bounds; assumption.
Defined.

End TrainerFacts.
